(** * Conversation and progression engine of the financial-security bot

    A shallow embedding of the parts of [bot.py] that decide where a user is
    in the experience and what they have earned: the per-user navigation
    stack, quiz completion, scenario walks, badge and reward bookkeeping,
    leaderboard ranking and the referral chain.

    Conventions.
    - Python [int] is [Z]; a nullable integer column is [option Z] and the
      idiom [x or d] is [or_default].
    - Python lists keep their order: the top of the navigation stack is the
      LAST element, as in [stk[-1]] and [stk + [view]].
    - A database session is a working copy of the committed store: only
      [db.commit()] publishes it, and leaving the [with SessionLocal()] block
      drops whatever was not committed.
    - A query ordered by score returns rows of equal score in an order of
      the database engine's choosing: facts about ranks are stated for
      every such order ([Leaderboard.query_result]).
    - Message rendering and transport are outside the model. *)

From Stdlib Require Import ZArith QArith List String Ascii Bool Lia Permutation Sorted.
From Stdlib Require Import DecimalString.
Import ListNotations.
Local Open Scope string_scope.
Local Open Scope list_scope.
Local Open Scope Z_scope.

(** ** Python idioms *)

(** [x or d] on a nullable integer: [None] and [0] are falsy. *)
Definition or_default (x : option Z) (d : Z) : Z :=
  match x with
  | None => d
  | Some v => if v =? 0 then d else v
  end.

(** ** Navigation stack ([push_nav], [pop_nav], [peek_nav], [back_handler]) *)

Module Nav.

(** A frame is the dict [{"view": v}]. *)
Record NavFrame := mkFrame { view : string }.

Definition frame_eqb (a b : NavFrame) : bool := (view a =? view b)%string.

Definition root : NavFrame := mkFrame "main_menu".

(** [context.user_data]: only the key [nav_stack] matters here; [None] is
    the key being absent. *)
Definition user_data := option (list NavFrame).

(** [context.user_data.get("nav_stack", [])] *)
Definition get_stack (ud : user_data) : list NavFrame :=
  match ud with Some s => s | None => [] end.

(** [context.user_data["nav_stack"] = s] *)
Definition set_stack (_ : user_data) (s : list NavFrame) : user_data := Some s.

(** [stk[-1]] of a non-empty list, as an option. *)
Fixpoint top (s : list NavFrame) : option NavFrame :=
  match s with
  | [] => None
  | [x] => Some x
  | _ :: r => top r
  end.

Definition push_nav (ud : user_data) (v : NavFrame) : user_data :=
  let stk := get_stack ud in
  let stk := match stk with [] => [root] | _ => stk end in
  match top stk with
  | Some t => if frame_eqb t v then set_stack ud stk else set_stack ud (stk ++ [v])
  | None => set_stack ud (stk ++ [v])
  end.

(** Returns the popped frame and the new [user_data]. *)
Definition pop_nav (ud : user_data) : option NavFrame * user_data :=
  let stk := get_stack ud in
  match stk with
  | [] => (None, ud)
  | _ => (top stk, set_stack ud (removelast stk))
  end.

Definition peek_nav (ud : user_data) : option NavFrame :=
  top (get_stack ud).

(** *** [back_handler] *)

(** [s.startswith(p)] *)
Definition startswith (p s : string) : bool := String.prefix p s.

(** The view that [back_handler] decides to render: the new top after
    dropping the current frame, or the main menu. *)
Definition back_view (ud : user_data) : string :=
  let stack := get_stack ud in
  if (1 <? List.length stack)%nat then
    match top (removelast stack) with
    | Some f => view f
    | None => "main_menu"
    end
  else "main_menu".

(** The stack stored by the first part of [back_handler] (up to the
    dispatch on [view]): whatever branch was taken, the last assignment
    stores the single root frame. *)
Definition back_reset (ud : user_data) : user_data :=
  let stack := get_stack ud in
  let ud1 := if (1 <? List.length stack)%nat then set_stack ud (removelast stack) else ud in
  set_stack ud1 [root].

(** The renderer that the dispatch of [back_handler] calls, reduced to
    what it does to the navigation stack. [show_shop], [show_balance],
    [report_start_via_callback] and [education_callback] push their own
    frame; [start_quiz] calls [present_quiz_levels] with the default
    [push=True]; the others are called with [push=False] or never touch
    the stack. *)
Definition render_after_back (v : string) (ud : user_data) : user_data :=
  if (v =? "tips")%string then ud
  else if (v =? "quiz_start")%string then push_nav ud (mkFrame "quiz_levels")
  else if (v =? "quiz_levels")%string then ud
  else if startswith "quiz_level" v then ud
  else if (v =? "scenario_menu")%string then ud
  else if startswith "scenario_play" v then ud
  else if (v =? "report_start")%string then push_nav ud (mkFrame "report_start")
  else if (v =? "shop")%string then push_nav ud (mkFrame "shop")
  else if (v =? "balance")%string then push_nav ud (mkFrame "balance")
  else if (v =? "leaderboard")%string then ud
  else if (v =? "referral")%string then ud
  else if (String.eqb v "education" || String.eqb v "premium")
    then push_nav ud (mkFrame "education")
  else ud.

(** The views whose renderer pushes a frame of its own when [back_handler]
    shows them again. *)
Definition repushed : list string :=
  ["quiz_levels"; "report_start"; "shop"; "balance"; "education"].

(** The whole handler: returns the rendered view and the final stack. *)
Definition back_handler (ud : user_data) : string * user_data :=
  let v := back_view ud in
  (v, render_after_back v (back_reset ud)).

End Nav.

(** ** Python strings as code points

    The badge helpers split, strip and sort strings, so for them a Python
    [str] is modelled as the list of its code points. Identifiers that are
    only compared for equality (views, periods, statuses, codes) stay
    [string]. *)

Module PyStr.

Definition pystr := list N.

(** Embeds an ASCII literal. *)
Fixpoint of_string (s : string) : pystr :=
  match s with
  | EmptyString => []
  | String c r => N_of_ascii c :: of_string r
  end.

Definition comma : N := 44%N.

Definition in_range (lo hi c : N) : bool := ((lo <=? c) && (c <=? hi))%N.

(** The code points [str.strip()] removes: those for which
    [str.isspace] holds. *)
Definition isspace (c : N) : bool :=
  in_range 9 13 c || in_range 28 32 c || (c =? 133)%N || (c =? 160)%N
  || (c =? 5760)%N || in_range 8192 8202 c || (c =? 8232)%N
  || (c =? 8233)%N || (c =? 8239)%N || (c =? 8287)%N || (c =? 12288)%N.

Fixpoint lstrip (s : pystr) : pystr :=
  match s with
  | [] => []
  | c :: r => if isspace c then lstrip r else s
  end.

(** Nothing to strip on the left. *)
Definition starts_clean (s : pystr) : Prop :=
  match s with [] => True | c :: _ => isspace c = false end.

(** Drops the blanks at the end: a blank is kept only when something that
    is kept follows it. *)
Fixpoint rstrip (s : pystr) : pystr :=
  match s with
  | [] => []
  | c :: r =>
      match rstrip r with
      | [] => if isspace c then [] else [c]
      | r' => c :: r'
      end
  end.

Definition strip (s : pystr) : pystr := rstrip (lstrip s).

(** [s.split(",")]: always at least one piece. *)
Fixpoint split (s : pystr) : list pystr :=
  match s with
  | [] => [[]]
  | c :: r =>
      if (c =? comma)%N then [] :: split r
      else match split r with
           | [] => [[c]]
           | p :: ps => (c :: p) :: ps
           end
  end.

(** [",".join(l)] *)
Fixpoint join (l : list pystr) : pystr :=
  match l with
  | [] => []
  | [x] => x
  | x :: r => x ++ comma :: join r
  end.

(** Truthiness of a string. *)
Definition nonempty (s : pystr) : bool :=
  match s with [] => false | _ => true end.

(** Comparison of strings, code point by code point, as [sorted] uses. *)
Fixpoint compare (a b : pystr) : comparison :=
  match a, b with
  | [], [] => Eq
  | [], _ :: _ => Lt
  | _ :: _, [] => Gt
  | x :: a', y :: b' =>
      match N.compare x y with
      | Eq => compare a' b'
      | c => c
      end
  end.

Definition eqb (a b : pystr) : bool :=
  match compare a b with Eq => true | _ => false end.

Definition lt (a b : pystr) : Prop := compare a b = Lt.

(** A Python [set] of strings, represented by the ascending list of its
    elements without duplicates: the list [sorted(badges)] enumerates. *)
Definition pyset := list pystr.

Fixpoint set_add (x : pystr) (s : pyset) : pyset :=
  match s with
  | [] => [x]
  | y :: r =>
      match compare x y with
      | Lt => x :: s
      | Eq => s
      | Gt => y :: set_add x r
      end
  end.

(** The representation invariant of a set. *)
Definition ascending (s : pyset) : Prop := StronglySorted lt s.

(** [set(l)] *)
Definition set_of_list (l : list pystr) : pyset := fold_right set_add [] l.

(** [sorted(s)] *)
Definition sorted (s : pyset) : list pystr := s.

End PyStr.

(** ** Badge strings ([parse_badges], [add_badge]) *)

Module Badges.
Import PyStr.

Definition parse_badges (badge_str : pystr) : list pystr :=
  if nonempty badge_str
  then filter nonempty (map strip (split badge_str))
  else [].

Definition add_badge (badge_str badge : pystr) : pystr :=
  let badges := set_of_list (parse_badges badge_str) in
  let badges := if nonempty badge then set_add badge badges else badges in
  join (sorted badges).

(** The set [add_badge] joins. *)
Definition joined (s b : pystr) : pyset :=
  if nonempty b then set_add b (set_of_list (parse_badges s))
  else set_of_list (parse_badges s).

(** The badges one entry of a joined string parses to. *)
Definition pieces (x : pystr) : list pystr :=
  filter nonempty (map strip (split x)).

(** The form in which [add_badge] writes a badge string: sorted, without
    duplicates, blanks or empty entries. *)
Definition canonical (badge_str : pystr) : Prop :=
  join (sorted (set_of_list (parse_badges badge_str))) = badge_str.

(** A badge identifier that survives a round trip through the stored
    string: no comma, no surrounding blanks, not empty. *)
Definition well_formed (badge : pystr) : Prop :=
  parse_badges badge = [badge].

End Badges.

(** ** The record store *)

Module Store.
Import PyStr.

(** Table [users]; the columns the engine reads or writes. *)
Record User := mkUser {
  telegram_id : Z;
  coins : option Z;
  quizzes_passed : option Z;
  max_unlocked_level : option Z;
  scenario_score : option Z;
  scenario_badges : option pystr
}.

(** Table [referrals]. *)
Record Referral := mkReferral {
  referrer_id : Z;
  referred_id : option Z;
  referral_code : string;
  status : string
}.

(** Table [leaderboard_entries]. *)
Record LeaderboardEntry := mkEntry {
  user_id : Z;
  score : Z;
  rank : option Z;
  period : string
}.

(** Committed contents of the database. Rows are kept in insertion
    order, which is the order an unordered query returns them in; a row
    is identified by its position. [events] is the log written by
    [track_user_event] (user and event type). *)
Record DB := mkDB {
  users : list User;
  referrals : list Referral;
  leaderboard : list LeaderboardEntry;
  events : list (Z * string)
}.

(** [User(telegram_id=uid, coins=0, quizzes_passed=0,
    max_unlocked_level=1, scenario_score=0, scenario_badges="")] *)
Definition new_user (uid : Z) : User :=
  mkUser uid (Some 0) (Some 0) (Some 1) (Some 0) (Some []).

(** [db.query(User).filter_by(telegram_id=uid).first()] *)
Definition find_user (us : list User) (uid : Z) : option User :=
  find (fun u => telegram_id u =? uid) us.

(** Attribute writes on the row returned by [find_user]. *)
Fixpoint update_user (uid : Z) (f : User -> User) (us : list User) : list User :=
  match us with
  | [] => []
  | u :: r => if telegram_id u =? uid then f u :: r else u :: update_user uid f r
  end.

Definition set_users (db : DB) (us : list User) : DB :=
  mkDB us (referrals db) (leaderboard db) (events db).
Definition set_referrals (db : DB) (rs : list Referral) : DB :=
  mkDB (users db) rs (leaderboard db) (events db).
Definition set_leaderboard (db : DB) (l : list LeaderboardEntry) : DB :=
  mkDB (users db) (referrals db) l (events db).

Definition ensure_user_record (db : DB) (uid : Z) : DB :=
  match find_user (users db) uid with
  | Some _ => db
  | None => set_users db (users db ++ [new_user uid])
  end.

Definition track_user_event (db : DB) (uid : Z) (event_type : string) : DB :=
  mkDB (users db) (referrals db) (leaderboard db) (events db ++ [(uid, event_type)]).

End Store.

(** ** Leaderboard ([update_leaderboard], [recalculate_leaderboard_ranks]) *)

Module Leaderboard.
Import Store.

Definition periods : list string := ["all_time"; "weekly"; "monthly"].

(** [enumerate(l)] from position [i]: each row with its position. *)
Fixpoint enumerate_from {A : Type} (i : nat) (l : list A) : list (nat * A) :=
  match l with
  | [] => []
  | x :: r => (i, x) :: enumerate_from (S i) r
  end.

(** [db.query(LeaderboardEntry).filter_by(period=p)]: the rows of the
    period, in table order, each with its position in the table. *)
Definition filter_by_period (p : string) (tbl : list LeaderboardEntry)
  : list (nat * LeaderboardEntry) :=
  filter (fun ie => String.eqb (period (snd ie)) p) (enumerate_from 0 tbl).

(** [.order_by(LeaderboardEntry.score.desc())] has the score as its only
    key: the order in which rows of equal score come back is the database
    engine's ([DATABASE_URL] chooses the engine). What every engine
    guarantees is [query_result] below, and the facts about ranks are
    stated over it. [order_by_score_desc] is the result of one engine, which
    returns rows of equal score in table order; the functions use it where
    they need a result. *)
Definition by_score_desc (x y : nat * LeaderboardEntry) : Prop :=
  score (snd y) <= score (snd x).

(** [entries] may be what
    [db.query(LeaderboardEntry).filter_by(period=p).order_by(score.desc()).all()]
    returns on the table [tbl]: the rows of the period, each once, by
    descending score. *)
Definition query_result (p : string) (tbl : list LeaderboardEntry)
    (entries : list (nat * LeaderboardEntry)) : Prop :=
  Permutation entries (filter_by_period p tbl) /\ StronglySorted by_score_desc entries.

Fixpoint insert_desc (x : nat * LeaderboardEntry) (l : list (nat * LeaderboardEntry))
  : list (nat * LeaderboardEntry) :=
  match l with
  | [] => [x]
  | y :: r => if score (snd x) <? score (snd y) then y :: insert_desc x r else x :: l
  end.

Definition order_by_score_desc (l : list (nat * LeaderboardEntry))
  : list (nat * LeaderboardEntry) :=
  fold_right insert_desc [] l.

(** The row after [entry.rank = r]. *)
Definition with_rank (r : Z) (e : LeaderboardEntry) : LeaderboardEntry :=
  mkEntry (user_id e) (score e) (Some r) (period e).

(** [entry.rank = rank] on the row at position [i]. *)
Fixpoint set_rank (i : nat) (r : Z) (tbl : list LeaderboardEntry) : list LeaderboardEntry :=
  match tbl, i with
  | [], _ => []
  | e :: t, O => with_rank r e :: t
  | e :: t, S j => e :: set_rank j r t
  end.

(** [for rank, entry in enumerate(entries, start=rank): entry.rank = rank] *)
Fixpoint assign_ranks (rank : Z) (entries : list nat) (tbl : list LeaderboardEntry)
  : list LeaderboardEntry :=
  match entries with
  | [] => tbl
  | i :: r => assign_ranks (rank + 1) r (set_rank i rank tbl)
  end.

(** [entries]: the rows of period [p] in ranking order, as the query
    returns them. *)
Definition ranking (p : string) (tbl : list LeaderboardEntry) : list (nat * LeaderboardEntry) :=
  order_by_score_desc (filter_by_period p tbl).

Definition rank_period (tbl : list LeaderboardEntry) (p : string) : list LeaderboardEntry :=
  assign_ranks 1 (map fst (ranking p tbl)) tbl.

Definition recalculate_ranks (tbl : list LeaderboardEntry) : list LeaderboardEntry :=
  fold_left rank_period periods tbl.

Definition recalculate_leaderboard_ranks (db : DB) : DB :=
  set_leaderboard db (recalculate_ranks (leaderboard db)).

(** The loop of [recalculate_leaderboard_ranks] over the periods [ps] with
    any engine: for each period the query returns some [entries], and the
    ranks 1, 2, ... are written on them in that order. *)
Inductive recalculated
  : list string -> list LeaderboardEntry -> list LeaderboardEntry -> Prop :=
| recalculated_nil (tbl : list LeaderboardEntry) : recalculated [] tbl tbl
| recalculated_cons (p : string) (ps : list string) (tbl : list LeaderboardEntry)
    (entries : list (nat * LeaderboardEntry)) (tbl' : list LeaderboardEntry) :
    query_result p tbl entries ->
    recalculated ps (assign_ranks 1 (map fst entries) tbl) tbl' ->
    recalculated (p :: ps) tbl tbl'.

(** [db'] is a store [recalculate_leaderboard_ranks] may leave. *)
Definition ranks_recalculated (db db' : DB) : Prop :=
  exists tbl', recalculated periods (leaderboard db) tbl' /\ db' = set_leaderboard db tbl'.

(** The order of the rows in [order_by_score_desc]: a row comes before
    another when its score is higher, or when the scores are equal and it
    comes first in the table. *)
Definition outranks (x y : nat * LeaderboardEntry) : Prop :=
  score (snd y) < score (snd x)
  \/ (score (snd x) = score (snd y) /\ (fst x < fst y)%nat).

(** The integers [r, r+1, ..., r+n-1]. *)
Fixpoint zseq (r : Z) (n : nat) : list Z :=
  match n with
  | O => []
  | S m => r :: zseq (r + 1) m
  end.

(** The rows of a ranking with the ranks [r, r+1, ...] written on them. *)
Fixpoint rerank (r : Z) (l : list (nat * LeaderboardEntry)) : list (nat * LeaderboardEntry) :=
  match l with
  | [] => []
  | (i, e) :: t => (i, with_rank r e) :: rerank (r + 1) t
  end.

(** What the rows of one period, taken with their positions in the table,
    look like after [recalculate_ranks], whose engine returns equal scores
    in table order: the ranks are 1..N, a lower rank never goes with a lower
    score, and among equal scores the row that comes first in the table has
    the lower rank. *)
Definition well_ranked (es : list (nat * LeaderboardEntry)) : Prop :=
  Permutation (map (fun x => rank (snd x)) es) (map Some (zseq 1 (List.length es)))
  /\ (forall x y r1 r2,
        In x es -> In y es ->
        rank (snd x) = Some r1 -> rank (snd y) = Some r2 ->
        r1 < r2 -> score (snd y) <= score (snd x))
  /\ (forall x y,
        In x es -> In y es ->
        (fst x < fst y)%nat -> score (snd x) = score (snd y) ->
        exists r1 r2, rank (snd x) = Some r1 /\ rank (snd y) = Some r2 /\ r1 < r2).

(** [coins // 10 + quizzes_passed * 10 + scenario_score] *)
Definition total_score (u : User) : Z :=
  or_default (coins u) 0 / 10
  + or_default (quizzes_passed u) 0 * 10
  + or_default (scenario_score u) 0.

(** The existing entry of the user for the period gets the score, or a
    new entry is added. *)
Fixpoint upsert_score (uid : Z) (p : string) (s : Z) (tbl : list LeaderboardEntry)
  : list LeaderboardEntry :=
  match tbl with
  | [] => [mkEntry uid s None p]
  | e :: t =>
      if (user_id e =? uid) && String.eqb (period e) p
      then mkEntry (user_id e) s (rank e) (period e) :: t
      else e :: upsert_score uid p s t
  end.

Definition update_leaderboard (db : DB) (uid : Z) : DB :=
  match find_user (users db) uid with
  | None => db
  | Some user =>
      let s := total_score user in
      let tbl := fold_left (fun t p => upsert_score uid p s t) periods (leaderboard db) in
      recalculate_leaderboard_ranks (set_leaderboard db tbl)
  end.

End Leaderboard.

(** ** Scenario rewards ([grant_scenario_rewards]) *)

Module Ledger.
Import PyStr Badges Store.

(** The dict the function returns. *)
Record Grant := mkGrant {
  g_coins : Z;
  g_badge : option pystr;
  g_score : Z;
  g_badges : list pystr
}.

Definition no_grant : Grant := mkGrant 0 None 0 [].

(** [s or ""] on the nullable badge column. *)
Definition badges_or_empty (s : option pystr) : pystr :=
  match s with Some b => b | None => [] end.

(** Truthiness of the optional [badge] argument. *)
Definition badge_given (badge : option pystr) : option pystr :=
  match badge with
  | Some b => if nonempty b then Some b else None
  | None => None
  end.

Definition grant_scenario_rewards (db : DB) (uid : Z) (reward : Z) (badge : option pystr)
  : DB * Grant :=
  let db := ensure_user_record db uid in
  match find_user (users db) uid with
  | None => (db, no_grant)
  | Some db_user =>
      let original_badges := badges_or_empty (scenario_badges db_user) in
      let updated_badges :=
        match badge_given badge with
        | Some b => add_badge original_badges b
        | None => original_badges
        end in
      let badge_unlocked := negb (PyStr.eqb updated_badges original_badges) in
      let new_coins :=
        if 0 <? reward then Some (or_default (coins db_user) 0 + reward) else coins db_user in
      let new_score :=
        if 0 <? reward then Some (or_default (scenario_score db_user) 0 + reward)
        else scenario_score db_user in
      let new_badges :=
        if badge_unlocked then Some updated_badges else scenario_badges db_user in
      let row := mkUser (telegram_id db_user) new_coins (quizzes_passed db_user)
                   (max_unlocked_level db_user) new_score new_badges in
      (* db.commit() *)
      let db := set_users db (update_user uid (fun _ => row) (users db)) in
      let db := Leaderboard.update_leaderboard db uid in
      let db := track_user_event db uid "scenario_complete" in
      (db, mkGrant reward
             (if badge_unlocked then badge else None)
             (or_default new_score 0)
             (parse_badges (badges_or_empty new_badges)))
  end.

End Ledger.

(** ** Quiz completion ([finish_quiz]) *)

Module Quiz.
Import Store.

Record QuizQuestion := mkQuestion {
  question : string;
  q_options : list string;
  answer : Z
}.

(** One language of the catalog: level to questions. *)
Definition LevelQuiz := list (Z * list QuizQuestion).

Definition QUIZ_LEVELS : list Z := [1; 2; 3].

(** [max(QUIZ_LEVELS)] *)
Definition max_level : Z := fold_right Z.max 0 QUIZ_LEVELS.

Fixpoint assoc {K V : Type} (eqb : K -> K -> bool) (k : K) (l : list (K * V)) : option V :=
  match l with
  | [] => None
  | (k', v) :: r => if eqb k k' then Some v else assoc eqb k r
  end.

(** What the function reports to its caller and to the event log. *)
Record QuizResult := mkResult {
  total : Z;
  passed : bool;
  earned : Z;
  new_level_unlocked : option Z
}.

(** A database session: the committed store and the user rows as the
    session sees them, with its uncommitted attribute writes. *)
Record Session := mkSession {
  committed : DB;
  pending : list User
}.

Definition open_session (db : DB) : Session := mkSession db (users db).

(** [db.commit()] *)
Definition commit (s : Session) : Session :=
  mkSession (set_users (committed s) (pending s)) (pending s).

(** [db.refresh(row)] reloads the row from the database, and leaving the
    [with] block closes the session: in both cases writes that were not
    committed are gone. *)
Definition refresh (s : Session) : Session :=
  mkSession (committed s) (users (committed s)).

(** The value of [max_unlocked_level] as every reader takes it
    ([max_unlocked_level or 1]); a user without a record has the default. *)
Definition unlocked_level (db : DB) (uid : Z) : Z :=
  match find_user (users db) uid with
  | Some u => or_default (max_unlocked_level u) 1
  | None => 1
  end.

(** The column [max_unlocked_level] as stored for the user. *)
Definition stored_level (db : DB) (uid : Z) : option Z :=
  match find_user (users db) uid with
  | Some u => max_unlocked_level u
  | None => None
  end.

Section WithConfig.

(** [QUIZ_PASS_THRESHOLD], read from the environment (default 3). *)
Variable QUIZ_PASS_THRESHOLD : Z.

(** The catalog [QUIZ]: the entry for ["ru"] and the other languages. *)
Variable QUIZ_ru : LevelQuiz.
Variable QUIZ_others : list (string * LevelQuiz).

(** [QUIZ.get(lang) or QUIZ["ru"]] *)
Definition lang_quiz (lang : string) : LevelQuiz :=
  if String.eqb lang "ru" then QUIZ_ru
  else match assoc String.eqb lang QUIZ_others with
       | Some ((_ :: _) as q) => q
       | _ => QUIZ_ru
       end.

(** [lang_quiz.get(level, [])] *)
Definition quiz_questions (lang : string) (level : Z) : list QuizQuestion :=
  match assoc Z.eqb level (lang_quiz lang) with
  | Some qs => qs
  | None => []
  end.

(** [correct] and [level] are [user_data["quiz_correct"]] and
    [user_data["quiz_level"]]. *)
Definition finish_quiz (db : DB) (uid : Z) (lang : string) (correct level : Z)
  : DB * QuizResult :=
  let total := Z.of_nat (List.length (quiz_questions lang level)) in
  let passed := QUIZ_PASS_THRESHOLD <=? correct in
  let base_reward := 10 in
  let perfect_score_bonus := if (0 <? total) && (correct =? total) then 5 else 0 in
  let earned := base_reward + perfect_score_bonus in
  (* with SessionLocal() as db: the user row is created and committed
     when it is missing *)
  let s := open_session (ensure_user_record db uid) in
  match find_user (pending s) uid with
  | None => (committed s, mkResult total passed earned None)
  | Some db_user =>
      let new_coins := or_default (coins db_user) 0 + earned in
      let new_quizzes :=
        if passed then Some (or_default (quizzes_passed db_user) 0 + 1)
        else quizzes_passed db_user in
      let perfect := (0 <? total) && (correct =? total) && (level <? max_level) in
      let next_level := level + 1 in
      let current_max := or_default (max_unlocked_level db_user) 1 in
      let unlock := perfect && (current_max <? next_level) in
      let new_max := if unlock then Some next_level else max_unlocked_level db_user in
      let row := mkUser (telegram_id db_user) (Some new_coins) new_quizzes new_max
                   (scenario_score db_user) (scenario_badges db_user) in
      let s := mkSession (committed s) (update_user uid (fun _ => row) (pending s)) in
      (* db.commit() sits inside the perfect-score branch *)
      let s := if perfect then commit s else s in
      let s := refresh s in
      let db := Leaderboard.update_leaderboard (committed s) uid in
      let db := track_user_event db uid "quiz_complete" in
      (db, mkResult total passed earned (if unlock then Some next_level else None))
  end.

(** The condition of the branch of [finish_quiz] that holds
    [db.commit()]. *)
Definition commits (lang : string) (correct level : Z) : bool :=
  let total := Z.of_nat (List.length (quiz_questions lang level)) in
  (0 <? total) && (correct =? total) && (level <? max_level).

(** A sequence of completed attempts of one user, each given by its
    language, its count of correct answers and its level. *)
Definition run_quizzes (db : DB) (uid : Z) (attempts : list (string * Z * Z)) : DB :=
  fold_left (fun d a => let '(lang, correct, level) := a in
                        fst (finish_quiz d uid lang correct level))
            attempts db.

End WithConfig.

End Quiz.

(** ** Referral chain ([process_referral]) *)

Module Referral.
Import Store.

(** The dict the function returns. *)
Inductive Outcome :=
| Success (referrer : Z)
| Failure (message : string).

Definition is_success (o : Outcome) : bool :=
  match o with Success _ => true | Failure _ => false end.

(** [db.query(Referral).filter_by(referral_code=code).first()] *)
Definition find_referral (rs : list Referral) (code : string) : option Referral :=
  find (fun r => String.eqb (referral_code r) code) rs.

(** Attribute writes on the row returned by [find_referral]. *)
Fixpoint update_referral (code : string) (f : Referral -> Referral) (rs : list Referral)
  : list Referral :=
  match rs with
  | [] => []
  | r :: t =>
      if String.eqb (referral_code r) code then f r :: t
      else r :: update_referral code f t
  end.

(** [db.query(Referral).filter_by(referrer_id=uid, status="completed").count()] *)
Definition completed_count (rs : list Referral) (uid : Z) : Z :=
  Z.of_nat (List.length
    (filter (fun r => (referrer_id r =? uid) && String.eqb (status r) "completed") rs)).

Definition add_coins (n : Z) (u : User) : User :=
  mkUser (telegram_id u) (Some (or_default (coins u) 0 + n)) (quizzes_passed u)
    (max_unlocked_level u) (scenario_score u) (scenario_badges u).

(** [successful_refs > 0 and successful_refs % 3 == 0] *)
Definition milestone (successful_refs : Z) : bool :=
  (0 <? successful_refs) && (successful_refs mod 3 =? 0).

Definition process_referral (db : DB) (code : string) (new_user_id : Z) : DB * Outcome :=
  match find_referral (referrals db) code with
  | None => (db, Failure "Invalid referral code")
  | Some referral =>
      if referrer_id referral =? new_user_id
      then (db, Failure "Invalid referral code")
      else if negb (String.eqb (status referral) "pending")
      then (db, Failure "Referral already processed")
      else
        let completed r := mkReferral (referrer_id r) (Some new_user_id)
                             (referral_code r) "completed" in
        let db := set_referrals db (update_referral code completed (referrals db)) in
        let successful_refs := completed_count (referrals db) (referrer_id referral) in
        let db :=
          if milestone successful_refs
          then set_users db (update_user (referrer_id referral) (add_coins 50) (users db))
          else db in
        let db := set_users db (update_user new_user_id (add_coins 20) (users db)) in
        (db, Success (referrer_id referral))
  end.

End Referral.

(** ** Scenario walk ([scenario_option_handler], [conclude_scenario]) *)

Module Scenario.
Import Store.

(** An option of a decision node; every key of the dict may be absent. *)
Record Choice := mkChoice {
  label : option string;
  feedback : option string;
  impact : option string;
  next : option string
}.

(** A node of the graph, decision or ending; every key may be absent.
    [progress] is the fraction shown in the progress bar. *)
Record Node := mkNode {
  type : option string;
  text : option string;
  outcome : option string;
  progress : option Q;
  options : option (list Choice)
}.

(** Truthiness of a node dict: the dict without any key is falsy. *)
Definition node_truthy (n : Node) : bool :=
  match type n, text n, outcome n, progress n, options n with
  | None, None, None, None, None => false
  | _, _, _, _, _ => true
  end.

(** One scenario of the catalog. *)
Record Meta := mkMeta {
  reward : option Z;
  badge : option PyStr.pystr;
  nodes : list (string * Node)
}.

Record HistoryItem := mkItem {
  h_node : string;
  h_choice : string;
  h_impact : option string
}.

(** [user_data["scenario_state"]] *)
Record State := mkState {
  id : option string;
  node : option string;
  history : list HistoryItem
}.

(** The part of [context.user_data] the engine uses. *)
Record UserData := mkUD {
  scenario_state : option State;
  nav_stack : Nav.user_data
}.

(** What the user is shown when a walk ends. *)
Record Conclusion := mkConclusion {
  c_outcome : string;
  c_text : string;
  c_reward : Z;
  c_badge : option PyStr.pystr
}.

(** How a call of the handler ends. *)
Inductive Reply :=
| Finished                         (* no scenario in progress *)
| NotFound                         (* unknown scenario *)
| StepMissing                      (* unknown node *)
| Unavailable                      (* choice past the last option *)
| Raised                           (* [IndexError] escapes the handler *)
| Concluded (c : Conclusion)
| Moved (node_id : string).

Definition get_str (x : option string) (d : string) : string :=
  match x with Some s => s | None => d end.

(** [nodes.get(k)] *)
Definition get_node (ns : list (string * Node)) (k : string) : option Node :=
  Quiz.assoc String.eqb k ns.

(** The chosen option leads nowhere: its [next] is missing or empty, or names
    no node of the scenario (or a node that is an empty dict). *)
Definition dangling (meta : Meta) (opt : Choice) : Prop :=
  next opt = None \/ next opt = Some ""
  \/ exists k, next opt = Some k
       /\ (get_node (nodes meta) k = None
           \/ exists n, get_node (nodes meta) k = Some n /\ node_truthy n = false).

(** [l[i]] after the guard [i >= len(l)] has let [i] through: a negative
    index counts from the end, and one below [-len(l)] raises. *)
Definition py_index {A : Type} (l : list A) (i : Z) : option A :=
  if 0 <=? i then nth_error l (Z.to_nat i)
  else if 0 <=? Z.of_nat (List.length l) + i
       then nth_error l (Z.to_nat (Z.of_nat (List.length l) + i))
       else None.

(** [stack[-1] = frame] on a non-empty stack. *)
Definition replace_top (s : list Nav.NavFrame) (f : Nav.NavFrame) : list Nav.NavFrame :=
  removelast s ++ [f].

Definition conclude_scenario (db : DB) (ud : UserData) (uid : Z) (meta : Meta)
    (ending_node : Node) : DB * UserData * Conclusion :=
  let outcome := get_str (outcome ending_node) "fail" in
  let success := String.eqb outcome "success" in
  let reward_coins := if success then match reward meta with Some r => r | None => 0 end
                      else 0 in
  let '(db, badge_awarded) :=
    if (0 <? reward_coins) && success
    then let db := ensure_user_record db uid in
         let '(db, g) := Ledger.grant_scenario_rewards db uid reward_coins (badge meta) in
         (db, Ledger.g_badge g)
    else (db, None) in
  let nav :=
    match Nav.get_stack (nav_stack ud) with
    | [] => nav_stack ud
    | stack => Nav.set_stack (nav_stack ud) (replace_top stack (Nav.mkFrame "scenario_menu"))
    end in
  (db, mkUD None nav,
   mkConclusion outcome (get_str (text ending_node) "") reward_coins badge_awarded).

(** The synthetic ending built for a choice that leads nowhere:
    [{"type": "ending", "outcome": "fail", "progress": 1.0, "text": feedback_text}] *)
Definition fallback_ending (feedback_text : string) : Node :=
  mkNode (Some "ending") (Some feedback_text) (Some "fail") (Some 1%Q) None.

(** The handler after the callback data has been split into the scenario
    id, the node id and the integer choice. [catalog] is the scenario
    catalog of the user's language. *)
Definition scenario_option_handler (catalog : list (string * Meta)) (db : DB)
    (ud : UserData) (uid : Z) (scenario_id_from_cb node_id : string) (choice_index : Z)
  : DB * UserData * Reply :=
  match scenario_state ud with
  | None => (db, ud, Finished)
  | Some state =>
      let scenario_id := scenario_id_from_cb in
      let state := mkState (Some scenario_id) (node state) (history state) in
      let ud := mkUD (Some state) (nav_stack ud) in
      match Quiz.assoc String.eqb scenario_id catalog with
      | None => (db, ud, NotFound)
      | Some scenario_meta =>
          match get_node (nodes scenario_meta) node_id with
          | None => (db, ud, StepMissing)
          | Some nd =>
              if negb (node_truthy nd) then (db, ud, StepMissing) else
              let opts := match options nd with Some l => l | None => [] end in
              if Z.of_nat (List.length opts) <=? choice_index then (db, ud, Unavailable) else
              match py_index opts choice_index with
              | None => (db, ud, Raised)
              | Some option =>
                  let feedback_text := get_str (feedback option) "" in
                  let choice_label := get_str (label option) "Выбор" in
                  let state := mkState (id state) (node state)
                                 (history state ++ [mkItem node_id choice_label (impact option)]) in
                  let ud := mkUD (Some state) (nav_stack ud) in
                  match next option with
                  | None | Some "" =>
                      let '(db, ud, c) := conclude_scenario db ud uid scenario_meta
                                            (fallback_ending feedback_text) in
                      (db, ud, Concluded c)
                  | Some next_node_id =>
                      match get_node (nodes scenario_meta) next_node_id with
                      | None =>
                          let '(db, ud, c) := conclude_scenario db ud uid scenario_meta
                                                (fallback_ending feedback_text) in
                          (db, ud, Concluded c)
                      | Some next_node =>
                          if negb (node_truthy next_node) then
                            let '(db, ud, c) := conclude_scenario db ud uid scenario_meta
                                                  (fallback_ending feedback_text) in
                            (db, ud, Concluded c)
                          else
                            let state := mkState (id state) (Some next_node_id) (history state) in
                            let ud := mkUD (Some state) (nav_stack ud) in
                            match type next_node with
                            | Some "ending" =>
                                let '(db, ud, c) := conclude_scenario db ud uid scenario_meta
                                                      next_node in
                                (db, ud, Concluded c)
                            | _ => (db, ud, Moved next_node_id)
                            end
                      end
                  end
              end
          end
      end
  end.

End Scenario.

(** ** Integers in f-strings *)

(** [f"{z}"] for an integer. *)
Definition string_of_Z (z : Z) : string := NilZero.string_of_int (Z.to_int z).

(** ** Languages ([modules/i18n.py], [set_language_callback],
    [resolve_scenario_language]) *)

Module Lang.

(** The dict [_user_lang]; the first binding of a user is the current one. *)
Definition langs := list (Z * string).

Definition DEFAULT_LANG : string := "ru".

Definition set_lang (m : langs) (user_id : Z) (lang : string) : langs :=
  if String.eqb lang "" then m else (user_id, lang) :: m.

Definition get_lang (m : langs) (user_id : Z) : string :=
  match Quiz.assoc Z.eqb user_id m with
  | Some lang => lang
  | None => DEFAULT_LANG
  end.

(** The three languages every text table of the bot has an entry for. *)
Definition supported (lang : string) : bool :=
  String.eqb lang "ru" || String.eqb lang "kk" || String.eqb lang "en".

(** [data] is the callback data. Returns the languages and the navigation
    stack. *)
Definition set_language_callback (m : langs) (user_id : Z) (data : string)
  : langs * Nav.user_data :=
  let m :=
    if String.eqb data "set_lang_ru" then set_lang m user_id "ru"
    else if String.eqb data "set_lang_kk" then set_lang m user_id "kk"
    else if String.eqb data "set_lang_en" then set_lang m user_id "en"
    else m in
  (m, Some [Nav.root]).

(** [lang in SCENARIOS] *)
Definition has_key {V : Type} (k : string) (d : list (string * V)) : bool :=
  match Quiz.assoc String.eqb k d with Some _ => true | None => false end.

Definition resolve_scenario_language {V : Type} (SCENARIOS : list (string * V))
    (lang : string) : string :=
  let candidate := if String.eqb lang "kk" then "kz" else lang in
  if has_key candidate SCENARIOS then candidate else "ru".

(** [SCENARIOS.get(scenario_lang, {})] with the language it was taken for;
    [V] is the type of one scenario. *)
Definition get_scenario_catalog {V : Type} (SCENARIOS : list (string * list (string * V)))
    (lang : string) : list (string * V) * string :=
  let scenario_lang := resolve_scenario_language SCENARIOS lang in
  (match Quiz.assoc String.eqb scenario_lang SCENARIOS with
   | Some c => c
   | None => []
   end, scenario_lang).

End Lang.

(** ** The quiz in progress ([quiz_level_selected], [send_quiz_question],
    [quiz_answer_callback]) *)

Module QuizFlow.
Import Store Quiz.

(** The keys of [context.user_data] the quiz uses. *)
Record UserData := mkUD {
  quiz_level : option Z;
  quiz_qi : option Z;
  quiz_correct : option Z;
  nav_stack : Nav.user_data
}.

(** How a handler ends. *)
Inductive Signal :=
| BadInput                      (* the callback data does not parse *)
| NotAvailable                  (* no such level *)
| Locked                        (* level above the unlocked one *)
| NoQuestions                   (* empty level *)
| Ended                         (* answer after the last question *)
| Raised                        (* [IndexError] escapes the handler *)
| Asked (qi : Z)                (* question [qi] is shown *)
| Completed (r : QuizResult).   (* [finish_quiz] ran *)

(** [user_data.get(key, d)] *)
Definition get (x : option Z) (d : Z) : Z :=
  match x with Some v => v | None => d end.

(** [level in QUIZ_LEVELS] *)
Definition is_level (level : Z) : bool := existsb (Z.eqb level) QUIZ_LEVELS.

Section WithConfig.

Variable QUIZ_PASS_THRESHOLD : Z.
Variable QUIZ_ru : LevelQuiz.
Variable QUIZ_others : list (string * LevelQuiz).

(** The call of [finish_quiz] with the counters of [user_data], which it
    removes at its end. *)
Definition finish (db : DB) (ud : UserData) (uid : Z) (lang : string)
  : DB * UserData * Signal :=
  let '(db, r) := finish_quiz QUIZ_PASS_THRESHOLD QUIZ_ru QUIZ_others db uid lang
                    (get (quiz_correct ud) 0) (get (quiz_level ud) 1) in
  (db, mkUD None None None (nav_stack ud), Completed r).

Definition send_quiz_question (db : DB) (ud : UserData) (uid : Z) (lang : string)
  : DB * UserData * Signal :=
  let qi := get (quiz_qi ud) 0 in
  let level := get (quiz_level ud) 1 in
  let questions := quiz_questions QUIZ_ru QUIZ_others lang level in
  match questions with
  | [] => (db, ud, NoQuestions)
  | _ =>
      if Z.of_nat (List.length questions) <=? qi then finish db ud uid lang
      else match Scenario.py_index questions qi with
           | None => (db, ud, Raised)
           | Some _ =>
               let view := ("quiz_level_" ++ string_of_Z level)%string in
               (db, mkUD (quiz_level ud) (quiz_qi ud) (quiz_correct ud)
                      (Nav.push_nav (nav_stack ud) (Nav.mkFrame view)),
                Asked qi)
           end
  end.

(** [ans] is the number in the callback data [quiz_ans:<digits>], or [None]
    when the data does not match. *)
Definition quiz_answer_callback (db : DB) (ud : UserData) (uid : Z) (lang : string)
    (ans : option Z) : DB * UserData * Signal :=
  match ans with
  | None => (db, ud, BadInput)
  | Some ans =>
      let qi := get (quiz_qi ud) 0 in
      let level := get (quiz_level ud) 1 in
      let questions := quiz_questions QUIZ_ru QUIZ_others lang level in
      match questions with
      | [] => (db, ud, NoQuestions)
      | _ =>
          if Z.of_nat (List.length questions) <=? qi then (db, ud, Ended)
          else match Scenario.py_index questions qi with
               | None => (db, ud, Raised)
               | Some q =>
                   let correct := answer q in
                   let quiz_correct' :=
                     if ans =? correct then Some (get (quiz_correct ud) 0 + 1)
                     else quiz_correct ud in
                   let ud := mkUD (quiz_level ud) (Some (qi + 1)) quiz_correct'
                               (nav_stack ud) in
                   if qi + 1 <? Z.of_nat (List.length questions)
                   then send_quiz_question db ud uid lang
                   else finish db ud uid lang
               end
      end
  end.

(** [level] is the integer in the callback data [quiz_level|<level>], or
    [None] when it is not an integer. *)
Definition quiz_level_selected (db : DB) (ud : UserData) (uid : Z) (lang : string)
    (level : option Z) : DB * UserData * Signal :=
  match level with
  | None => (db, ud, BadInput)
  | Some level =>
      if negb (is_level level) then (db, ud, NotAvailable)
      else
        let max_unlocked := unlocked_level db uid in
        if max_unlocked <? level then (db, ud, Locked)
        else
          let ud := mkUD (Some level) (Some 0) (Some 0) (nav_stack ud) in
          let db := track_user_event db uid "quiz_level_start" in
          send_quiz_question db ud uid lang
  end.

(** The answers of a user, one callback after the other. *)
Fixpoint answer_all (st : DB * UserData * Signal) (uid : Z) (lang : string)
    (answers : list Z) : DB * UserData * Signal :=
  match answers with
  | [] => st
  | a :: r =>
      let '(db, ud, _) := st in
      answer_all (quiz_answer_callback db ud uid lang (Some a)) uid lang r
  end.

End WithConfig.

(** The number of answers that hit the question's [answer], question by
    question. *)
Fixpoint hits (questions : list QuizQuestion) (answers : list Z) : Z :=
  match questions, answers with
  | q :: qs, a :: r => (if a =? answer q then 1 else 0) + hits qs r
  | _, _ => 0
  end.

End QuizFlow.

(** ** The shop ([show_shop], [shop_buy_callback]) *)

Module Shop.
Import Store.

Inductive Purchase :=
| NotEnough
| Bought
| ItemUnavailable
| PurchaseError.

(** What [show_shop] does to the store and to the navigation stack. *)
Definition show_shop (db : DB) (nav : Nav.user_data) (uid : Z) : DB * Nav.user_data :=
  (ensure_user_record db uid, Nav.push_nav nav (Nav.mkFrame "shop")).

Definition hint_cost : Z := 20.

Definition set_coins (c : Z) (u : User) : User :=
  mkUser (telegram_id u) (Some c) (quizzes_passed u) (max_unlocked_level u)
    (scenario_score u) (scenario_badges u).

(** [action] is the callback data. *)
Definition shop_buy_callback (db : DB) (nav : Nav.user_data) (uid : Z) (action : string)
  : DB * Nav.user_data * Purchase :=
  let db := ensure_user_record db uid in
  match find_user (users db) uid with
  | None => (db, nav, PurchaseError)
  | Some user_row =>
      let current_coins := or_default (coins user_row) 0 in
      if String.eqb action "buy_hint" then
        let cost := hint_cost in
        if current_coins <? cost then
          let '(db, nav) := show_shop db nav uid in (db, nav, NotEnough)
        else
          let db := set_users db (update_user uid (set_coins (current_coins - cost)) (users db)) in
          let '(db, nav) := show_shop db nav uid in (db, nav, Bought)
      else
        let '(db, nav) := show_shop db nav uid in (db, nav, ItemUnavailable)
  end.

(** The balance as every reader takes it ([coins or 0]); 0 without a record. *)
Definition balance (db : DB) (uid : Z) : Z :=
  match find_user (users db) uid with
  | Some u => or_default (coins u) 0
  | None => 0
  end.

End Shop.

(** ** Referral codes ([get_or_create_referral_code]) *)

Module ReferralCodes.
Import Store Referral.

(** [db.query(Referral).filter_by(referrer_id=uid).first()] *)
Definition find_by_referrer (rs : list Referral) (uid : Z) : option Referral :=
  find (fun r => referrer_id r =? uid) rs.

(** The column [referral_code] is unique: adding a row with a code that is
    already there fails. *)
Definition code_taken (rs : list Referral) (code : string) : bool :=
  existsb (fun r => String.eqb (referral_code r) code) rs.

(** [generate_referral_code] hashes the user id with the current time; the
    code it returns on the first call is [generated], and [retry] is the
    code it returns in the exception handler when the insert has failed. *)
Definition get_or_create_referral_code (db : DB) (uid : Z) (generated retry : string)
  : DB * string :=
  match find_by_referrer (referrals db) uid with
  | Some referral => (db, referral_code referral)
  | None =>
      if code_taken (referrals db) generated then (db, retry)
      else (set_referrals db (referrals db ++ [mkReferral uid None generated "pending"]),
            generated)
  end.

(** The stores the bot can be in: it starts without referrals, referral
    rows are added by [get_or_create_referral_code] only and changed by
    [process_referral] only; everything else leaves the table alone. *)
Inductive reachable : DB -> Prop :=
| reach_start (db : DB) : referrals db = [] -> reachable db
| reach_code (db : DB) (uid : Z) (generated retry : string) :
    reachable db -> reachable (fst (get_or_create_referral_code db uid generated retry))
| reach_referral (db : DB) (code : string) (new_user_id : Z) :
    reachable db -> reachable (fst (process_referral db code new_user_id))
| reach_other (db db' : DB) :
    reachable db -> referrals db' = referrals db -> reachable db'.

(** The number of referral rows of a referrer. *)
Definition rows_of (rs : list Referral) (uid : Z) : nat :=
  List.length (filter (fun r => referrer_id r =? uid) rs).

End ReferralCodes.

(** ** Leaderboard queries ([reset_weekly_leaderboard], [get_leaderboard]) *)

Module Board.
Import Store Leaderboard.

(** [query.filter_by(period="weekly").update({"score": 0})] and the ranks
    recomputed. *)
Definition zero_weekly (e : LeaderboardEntry) : LeaderboardEntry :=
  if String.eqb (period e) "weekly" then mkEntry (user_id e) 0 (rank e) (period e) else e.

Definition reset_weekly_leaderboard (db : DB) : DB :=
  recalculate_leaderboard_ranks (set_leaderboard db (map zero_weekly (leaderboard db))).

(** [db'] is a store [reset_weekly_leaderboard] may leave, with any engine. *)
Definition weekly_reset (db db' : DB) : Prop :=
  ranks_recalculated (set_leaderboard db (map zero_weekly (leaderboard db))) db'.

(** The name columns of the table [users]. *)
Record Names := mkNames {
  username : option string;
  first_name : option string;
  last_name : option string
}.

(** Truthiness of a nullable string. *)
Definition given (s : option string) : option string :=
  match s with
  | Some v => if String.eqb v "" then None else Some v
  | None => None
  end.

Definition display_name (n : Names) (uid : Z) : string :=
  match given (username n) with
  | Some u => ("@" ++ u)%string
  | None =>
      match given (first_name n) with
      | Some f =>
          match given (last_name n) with
          | Some l => (f ++ " " ++ l)%string
          | None => f
          end
      | None => ("User " ++ string_of_Z uid)%string
      end
  end.

(** One line of the result. *)
Record Line := mkLine {
  l_rank : Z;
  l_user_id : Z;
  l_username : string;
  l_score : Z
}.

(** The result without [user_percentage], which is a float. *)
Record Standing := mkStanding {
  entries : list Line;
  total_players : Z;
  user_position : option Z
}.

(** [l[:n]] *)
Definition slice_to {A : Type} (l : list A) (n : Z) : list A :=
  if 0 <=? n then firstn (Z.to_nat n) l
  else firstn (Z.to_nat (Z.of_nat (List.length l) + n)) l.

(** The place, counted from [user_rank], of the first entry of the user. *)
Fixpoint position_from (user_rank : Z) (uid : Z) (all_entries : list LeaderboardEntry)
  : option Z :=
  match all_entries with
  | [] => None
  | e :: r => if user_id e =? uid then Some user_rank else position_from (user_rank + 1) uid r
  end.

(** [get_leaderboard] once its first query has returned [all_entries];
    [names] gives the name columns of a user's record. *)
Definition get_leaderboard_of (all_entries : list LeaderboardEntry) (db : DB)
    (names : Z -> Names) (p : string) (limit : Z) (uid : option Z) : Standing :=
  let total_players := Z.of_nat (List.length all_entries) in
  let top_entries :=
    if limit <? total_players then slice_to all_entries limit else all_entries in
  let result :=
    flat_map (fun entry =>
      match find_user (users db) (user_id entry) with
      | Some _ => [mkLine (or_default (rank entry) 0) (user_id entry)
                     (display_name (names (user_id entry)) (user_id entry)) (score entry)]
      | None => []
      end) top_entries in
  let user_position :=
    match uid with
    | None => None
    | Some u =>
        if u =? 0 then None
        else match find (fun e => (user_id e =? u) && String.eqb (period e) p)
                        (leaderboard db) with
             | Some _ => position_from 1 u all_entries
             | None => None
             end
    end in
  mkStanding result total_players user_position.

(** With the engine of [order_by_score_desc]. *)
Definition get_leaderboard (db : DB) (names : Z -> Names) (p : string) (limit : Z)
    (uid : option Z) : Standing :=
  get_leaderboard_of (map snd (ranking p (leaderboard db))) db names p limit uid.

(** [find_user] finds a record. *)
Definition known (db : DB) (uid : Z) : bool :=
  match find_user (users db) uid with Some _ => true | None => false end.

(** The columns ranking never writes. *)
Definition key (e : LeaderboardEntry) : Z * Z * string := (user_id e, score e, period e).

(** The score of the user's entry for a period, as [update_leaderboard]
    finds it. *)
Definition entry_score (uid : Z) (p : string) (tbl : list LeaderboardEntry) : option Z :=
  option_map score (find (fun e => (user_id e =? uid) && String.eqb (period e) p) tbl).

End Board.

(** ** Leaving a scenario ([scenario_home_handler]) *)

Module ScenarioNav.
Import Store Scenario.

(** What [start_scenario_from_callback] does to the store and to
    [user_data] when it shows the list of scenarios; with an empty catalog
    it returns after the notice. *)
Definition start_scenario_from_callback (catalog : list (string * Meta)) (db : DB)
    (ud : UserData) (uid : Z) (push_to_nav : bool) : DB * UserData :=
  let db := ensure_user_record db uid in
  match catalog with
  | [] => (db, ud)
  | _ =>
      let nav :=
        if push_to_nav then
          match Nav.top (Nav.get_stack (nav_stack ud)) with
          | Some t =>
              if String.eqb (Nav.view t) "scenario_menu" then nav_stack ud
              else Nav.push_nav (nav_stack ud) (Nav.mkFrame "scenario_menu")
          | None => Nav.push_nav (nav_stack ud) (Nav.mkFrame "scenario_menu")
          end
        else nav_stack ud in
      (db, mkUD None nav)
  end.

Definition scenario_home_handler (catalog : list (string * Meta)) (db : DB)
    (ud : UserData) (uid : Z) : DB * UserData :=
  let nav :=
    match Nav.top (Nav.get_stack (nav_stack ud)) with
    | Some t =>
        if Nav.startswith "scenario_play" (Nav.view t)
        then Nav.set_stack (nav_stack ud) (removelast (Nav.get_stack (nav_stack ud)))
        else nav_stack ud
    | None => nav_stack ud
    end in
  start_scenario_from_callback catalog db (mkUD (scenario_state ud) nav) uid true.

(** The coins [conclude_scenario] computes as [reward_coins], and the stack
    it leaves: the top frame replaced by the scenario menu. *)
Definition payout (meta : Scenario.Meta) (ending : Scenario.Node) : Z :=
  if String.eqb (Scenario.get_str (Scenario.outcome ending) "fail") "success"
  then match Scenario.reward meta with Some x => x | None => 0 end else 0.

Definition menu_on_top (nav : option (list Nav.NavFrame)) : option (list Nav.NavFrame) :=
  match Nav.get_stack nav with
  | [] => nav
  | stack => Nav.set_stack nav (Scenario.replace_top stack (Nav.mkFrame "scenario_menu"))
  end.

End ScenarioNav.

(** ** Sample data used to exercise the definitions *)

Module Samples.
Import Store.

Definition alice : User := mkUser 1 (Some 0) (Some 0) (Some 1) (Some 0) (Some []).
Definition bob : User := mkUser 9 (Some 0) (Some 0) (Some 1) (Some 0) (Some []).

(** Alice has two completed referrals and a third code still pending. *)
Definition referral_db : DB :=
  mkDB [alice; bob]
       [mkReferral 1 (Some 5) "AAAA0001" "completed";
        mkReferral 1 (Some 6) "AAAA0002" "completed";
        mkReferral 1 None "AAAA0003" "pending"]
       [] [].

Definition referral_db_after : DB :=
  fst (Referral.process_referral referral_db "AAAA0003" 9).

Definition q (n : Z) : Quiz.QuizQuestion := Quiz.mkQuestion "?" ["A"; "B"; "C"; "D"] n.

(** The shape of one language of [QUIZ]: three levels of three questions,
    with the catalog's answer indices (the texts are left out). *)
Definition quiz_ru : Quiz.LevelQuiz :=
  [(1, [q 1; q 2; q 2]); (2, [q 1; q 2; q 2]); (3, [q 1; q 2; q 2])].

(** A catalog with five questions at level 1. *)
Definition quiz_five : Quiz.LevelQuiz :=
  [(1, [q 0; q 1; q 2; q 3; q 1]); (2, [q 0; q 1; q 2])].

Definition quiz_db : DB := mkDB [alice] [] [] [].

(** A scenario whose first option points at a node that does not exist. *)
Definition risky_choice : Scenario.Choice :=
  Scenario.mkChoice (Some "Open the link") (Some "The link was a trap.") (Some "danger")
    (Some "ghost").

Definition phishing : Scenario.Meta :=
  Scenario.mkMeta (Some 30) (Some (PyStr.of_string "phishing_hero"))
    [("start", Scenario.mkNode (Some "decision") (Some "You get an SMS.") None None
                 (Some [risky_choice;
                        Scenario.mkChoice (Some "Ignore") (Some "Good.") (Some "safe")
                          (Some "win")]));
     ("win", Scenario.mkNode (Some "ending") (Some "Safe.") (Some "success") None None)].

Definition walking : Scenario.UserData :=
  Scenario.mkUD (Some (Scenario.mkState (Some "phishing") (Some "start") []))
    (Some [Nav.root; Nav.mkFrame "scenario_menu"; Nav.mkFrame "scenario_play_phishing"]).

(** Carol already holds the badge of the phishing scenario. *)
Definition carol : User :=
  mkUser 3 (Some 40) (Some 1) (Some 1) (Some 30) (Some (PyStr.of_string "phishing_hero")).

Definition badge_db : DB := mkDB [alice; carol] [] [] [].

(** A table with two periods; in [all_time] the users 1 and 3 are tied. *)
Definition board : list LeaderboardEntry :=
  [mkEntry 1 20 None "all_time"; mkEntry 1 5 None "weekly";
   mkEntry 2 35 None "all_time"; mkEntry 3 20 None "all_time";
   mkEntry 2 0 None "weekly"].

(** A table [recalculate_leaderboard_ranks] may leave from [board]: the
    engine returned the tied rows of [all_time] with user 3 before user 1. *)
Definition board_ranked : list LeaderboardEntry :=
  [mkEntry 1 20 (Some 3) "all_time"; mkEntry 1 5 (Some 1) "weekly";
   mkEntry 2 35 (Some 1) "all_time"; mkEntry 3 20 (Some 2) "all_time";
   mkEntry 2 0 (Some 2) "weekly"].

(** The languages of [QUIZ] other than ["ru"]; each has the shape of
    [quiz_ru]. *)
Definition quiz_others : list (string * Quiz.LevelQuiz) :=
  [("kk", quiz_ru); ("en", quiz_ru)].

End Samples.

(** * Verified properties *)

(** ** Navigation stack *)

Module NavFacts.
Import Nav.

Lemma top_snoc (s : list NavFrame) (f : NavFrame) : top (s ++ [f]) = Some f.
Proof.
  induction s as [|x s IH]; [reflexivity|].
  simpl. rewrite IH. destruct (s ++ [f]) eqn:E; [|reflexivity].
  destruct s; discriminate.
Qed.

Lemma removelast_snoc (s : list NavFrame) (f : NavFrame) : removelast (s ++ [f]) = s.
Proof. apply removelast_last. Qed.

Lemma snoc_not_nil (s : list NavFrame) (f : NavFrame) : s ++ [f] <> [].
Proof. destruct s; discriminate. Qed.

Lemma frame_eqb_refl (f : NavFrame) : frame_eqb f f = true.
Proof. apply String.eqb_refl. Qed.

Lemma frame_eqb_neq (a b : NavFrame) : a <> b -> frame_eqb a b = false.
Proof.
  intros H. unfold frame_eqb. apply String.eqb_neq. intros E.
  apply H. destruct a, b; simpl in E; congruence.
Qed.

(** [push_nav] on a stack given by its frames below the top and its top. *)
Lemma push_nav_snoc (s : list NavFrame) (t v : NavFrame) :
  push_nav (Some (s ++ [t])) v
  = Some (if frame_eqb t v then s ++ [t] else (s ++ [t]) ++ [v]).
Proof.
  unfold push_nav, set_stack. simpl get_stack.
  destruct (s ++ [t]) eqn:E; [exfalso; eapply snoc_not_nil; eauto|].
  rewrite <- E, top_snoc. destruct (frame_eqb t v); reflexivity.
Qed.

(** C8, as the code has it: [pop_nav] removes and returns the top frame
    of every non-empty stack, the root frame included (the stack is then
    left empty), and returns none, storing nothing, exactly on an empty
    or absent stack. *)
Theorem pop_nav_pops_any_top :
  (forall (s : list NavFrame) (f : NavFrame),
      pop_nav (Some (s ++ [f])) = (Some f, Some s))
  /\ pop_nav (Some []) = (None, Some [])
  /\ pop_nav None = (None, None).
Proof.
  split; [|split; reflexivity].
  intros s f. unfold pop_nav, set_stack. simpl get_stack.
  destruct (s ++ [f]) eqn:E; [exfalso; eapply snoc_not_nil; eauto|].
  rewrite <- E, top_snoc, removelast_snoc. reflexivity.
Qed.

(** C8 as stated fails: with only the root frame on the stack, [pop_nav]
    returns the root and leaves the stack empty, instead of returning none
    and keeping the stack. *)
Lemma pop_nav_pops_root :
  pop_nav (Some [root]) = (Some root, Some [])
  /\ pop_nav (Some [root]) <> (None, Some [root]).
Proof. split; [reflexivity | discriminate]. Qed.

(** C9: pushing the view that is already on top leaves the stack as it
    is, and from the root, push(A), push(B), push(B) gives [root, A, B]
    for views A, B with A not the root and B not A. *)
Theorem push_nav_idempotent_on_top :
  (forall (s : list NavFrame) (v : NavFrame),
      push_nav (Some (s ++ [v])) v = Some (s ++ [v]))
  /\ (forall A B : NavFrame,
         A <> root -> B <> A ->
         push_nav (push_nav (push_nav (Some [root]) A) B) B = Some [root; A; B]).
Proof.
  split.
  - intros s v. rewrite push_nav_snoc, frame_eqb_refl. reflexivity.
  - intros A B HA HB.
    change [root] with ([] ++ [root]).
    rewrite push_nav_snoc, (frame_eqb_neq root A) by congruence.
    rewrite push_nav_snoc, (frame_eqb_neq A B) by congruence.
    rewrite push_nav_snoc, frame_eqb_refl. reflexivity.
Qed.

Lemma push_nav_idempotent_on_top_witness :
  mkFrame "tips" <> root /\ mkFrame "shop" <> mkFrame "tips"
  /\ push_nav (push_nav (push_nav (Some [root]) (mkFrame "tips")) (mkFrame "shop"))
       (mkFrame "shop")
     = Some [root; mkFrame "tips"; mkFrame "shop"].
Proof.
  split; [discriminate|]. split; [discriminate|].
  apply (proj2 push_nav_idempotent_on_top); discriminate.
Defined.

Lemma push_on_root (v : string) :
  push_nav (Some [root]) (mkFrame v)
  = Some (if String.eqb "main_menu" v then [root] else [root; mkFrame v]).
Proof.
  change [root] with ([] ++ [root]) at 1. rewrite push_nav_snoc.
  unfold frame_eqb. simpl. destruct (String.eqb "main_menu" v); reflexivity.
Qed.

(** C10, as the code has it: the stack update at the start of
    [back_handler] always stores the single root frame, whatever the
    depth before; the view rendered afterwards may push its own frame, so
    once the back action is handled the stack is either the root alone or
    the root and the frame of the view that was rendered again (quiz
    levels, report start, shop, balance or education). *)
Theorem back_handler_resets_then_renders :
  forall ud : user_data,
    back_reset ud = Some [root]
    /\ (snd (back_handler ud) = Some [root]
        \/ exists v, In v repushed /\ snd (back_handler ud) = Some [root; mkFrame v]).
Proof.
  intros ud. split; [reflexivity|].
  unfold back_handler. simpl snd.
  change (back_reset ud) with (Some [root]).
  generalize (back_view ud). intros v. unfold render_after_back.
  repeat match goal with
  | |- context [if ?c then _ else _] => destruct c; [try (left; reflexivity)|]
  end; try (left; reflexivity).
  all: rewrite push_on_root; simpl; right; eexists; split; [|reflexivity];
       unfold repushed; simpl; tauto.
Qed.

(** C10 as stated fails: a back action from the balance view opened from
    the shop renders the shop again, which pushes its frame, and the stack
    ends as [root, shop]. *)
Lemma back_handler_not_always_root :
  let ud := Some [root; mkFrame "shop"; mkFrame "balance"] in
  back_handler ud = ("shop", Some [root; mkFrame "shop"])
  /\ snd (back_handler ud) <> Some [root].
Proof. split; [reflexivity | discriminate]. Qed.

End NavFacts.

(** ** The record store *)

Module StoreFacts.
Import Store.

Lemma or_default_some (v d : Z) : or_default (Some (v + d)) 0 = v + d.
Proof. unfold or_default. destruct (Z.eqb_spec (v + d) 0); lia. Qed.

Lemma find_user_update (uid : Z) (f : User -> User) (us : list User) (x : Z) :
  (forall u, telegram_id u = uid -> telegram_id (f u) = uid) ->
  find_user (update_user uid f us) x
  = if x =? uid then option_map f (find_user us x) else find_user us x.
Proof.
  intros Hf. unfold find_user. induction us as [|u r IH]; simpl.
  - destruct (x =? uid); reflexivity.
  - destruct (Z.eqb_spec (telegram_id u) uid) as [E|E]; simpl.
    + rewrite (Hf u E). destruct (Z.eqb_spec uid x) as [E1|E1].
      * destruct (Z.eqb_spec (telegram_id u) x); [|lia].
        destruct (Z.eqb_spec x uid); [reflexivity | lia].
      * destruct (Z.eqb_spec (telegram_id u) x); [lia|].
        destruct (Z.eqb_spec x uid); [lia | reflexivity].
    + destruct (Z.eqb_spec (telegram_id u) x) as [E1|E1].
      * destruct (Z.eqb_spec x uid); [lia | reflexivity].
      * exact IH.
Qed.

Lemma find_user_id (us : list User) (uid : Z) (u : User) :
  find_user us uid = Some u -> telegram_id u = uid.
Proof.
  unfold find_user. intros H. apply find_some in H. destruct H as [_ H].
  apply Z.eqb_eq. exact H.
Qed.

Lemma find_user_app_new (us : list User) (uid : Z) :
  find_user us uid = None -> find_user (us ++ [new_user uid]) uid = Some (new_user uid).
Proof.
  unfold find_user. induction us as [|u r IH]; simpl.
  - rewrite Z.eqb_refl. reflexivity.
  - destruct (telegram_id u =? uid); [discriminate | exact IH].
Qed.

Lemma find_user_ensure (db : DB) (uid : Z) :
  find_user (users (ensure_user_record db uid)) uid
  = Some (match find_user (users db) uid with Some u => u | None => new_user uid end).
Proof.
  unfold ensure_user_record. destruct (find_user (users db) uid) eqn:E.
  - exact E.
  - simpl. apply find_user_app_new. exact E.
Qed.

Lemma users_update_leaderboard (db : DB) (uid : Z) :
  users (Leaderboard.update_leaderboard db uid) = users db.
Proof.
  unfold Leaderboard.update_leaderboard.
  destruct (find_user (users db) uid); reflexivity.
Qed.

End StoreFacts.

(** ** Referral chain *)

Module ReferralFacts.
Import Store Referral StoreFacts.

Lemma find_referral_update (code : string) (f : Referral -> Referral) (rs : list Referral) :
  (forall r, referral_code (f r) = referral_code r) ->
  find_referral (update_referral code f rs) code = option_map f (find_referral rs code).
Proof.
  intros Hf. unfold find_referral. induction rs as [|r t IH]; simpl; [reflexivity|].
  destruct (String.eqb (referral_code r) code) eqn:E; simpl.
  - rewrite Hf, E. reflexivity.
  - rewrite E. exact IH.
Qed.

(** Completing a pending referral adds exactly one to the referrer's
    count of completed referrals. *)
Lemma completed_count_update (code : string) (new_id : Z) (rs : list Referral) (r : Referral) :
  find_referral rs code = Some r ->
  String.eqb (status r) "pending" = true ->
  completed_count
    (update_referral code
       (fun x => mkReferral (referrer_id x) (Some new_id) (referral_code x) "completed") rs)
    (referrer_id r)
  = completed_count rs (referrer_id r) + 1.
Proof.
  unfold find_referral, completed_count. induction rs as [|x t IH]; simpl; [discriminate|].
  intros Hfind Hpend.
  destruct (String.eqb (referral_code x) code) eqn:E.
  - injection Hfind as ->. simpl.
    apply String.eqb_eq in Hpend. rewrite Hpend, Z.eqb_refl. simpl. lia.
  - simpl. specialize (IH Hfind Hpend).
    destruct ((referrer_id x =? referrer_id r) && String.eqb (status x) "completed");
      simpl List.length; lia.
Qed.

(** What a call does once its three guards are passed. *)
Lemma process_referral_success (db : DB) (code : string) (new_id : Z) (db' : DB) (rid : Z) :
  process_referral db code new_id = (db', Success rid) ->
  exists r,
    find_referral (referrals db) code = Some r
    /\ rid = referrer_id r /\ rid <> new_id
    /\ String.eqb (status r) "pending" = true
    /\ referrals db'
       = update_referral code
           (fun x => mkReferral (referrer_id x) (Some new_id) (referral_code x) "completed")
           (referrals db)
    /\ users db'
       = update_user new_id (add_coins 20)
           (if milestone (completed_count (referrals db') rid)
            then update_user rid (add_coins 50) (users db) else users db).
Proof.
  unfold process_referral. intros H.
  destruct (find_referral (referrals db) code) as [r|] eqn:Hf; [|discriminate].
  destruct (Z.eqb_spec (referrer_id r) new_id) as [E|E]; [discriminate|].
  destruct (String.eqb (status r) "pending") eqn:Hp; simpl in H; [|discriminate].
  exists r. injection H as <- <-.
  destruct (milestone _) eqn:M; simpl; rewrite M; repeat split; assumption.
Qed.

(** C3: after a successful [process_referral], the count of the referrer's
    completed referrals includes the one just made; the referrer's record
    is credited the milestone bonus of 50 coins exactly when that count is
    a positive multiple of 3, and the new user's record is credited the
    signup bonus of 20 coins. Counts 1, 2, 4 and 5 are no milestone,
    count 3 is. *)
Theorem process_referral_bonuses :
  forall (db db' : DB) (code : string) (new_id rid : Z),
    process_referral db code new_id = (db', Success rid) ->
    let n := completed_count (referrals db') rid in
    n = completed_count (referrals db) rid + 1
    /\ (forall u, find_user (users db) rid = Some u ->
          exists u', find_user (users db') rid = Some u'
            /\ or_default (coins u') 0
               = or_default (coins u) 0 + (if milestone n then 50 else 0))
    /\ (forall v, find_user (users db) new_id = Some v ->
          exists v', find_user (users db') new_id = Some v'
            /\ or_default (coins v') 0 = or_default (coins v) 0 + 20)
    /\ (forall x, find_user (users db) x = None -> find_user (users db') x = None)
    /\ (milestone n = true <-> 0 < n /\ n mod 3 = 0)
    /\ milestone 1 = false /\ milestone 2 = false /\ milestone 3 = true
    /\ milestone 4 = false /\ milestone 5 = false.
Proof.
  intros db db' code new_id rid H n.
  destruct (process_referral_success _ _ _ _ _ H)
    as (r & Hf & -> & Hne & Hp & Hrefs & Husers).
  assert (Hid : forall k uid u, telegram_id u = uid -> telegram_id (add_coins k u) = uid)
    by (intros k uid u E; exact E).
  split; [|split; [|split; [|split; [|split]]]].
  - subst n. rewrite Hrefs. apply completed_count_update; assumption.
  - intros u Hu. rewrite Husers. fold n.
    rewrite find_user_update by apply Hid.
    destruct (Z.eqb_spec (referrer_id r) new_id) as [|_]; [contradiction|].
    destruct (milestone n).
    + rewrite find_user_update by apply Hid. rewrite Z.eqb_refl, Hu. simpl.
      eexists; split; [reflexivity|]. simpl. apply or_default_some.
    + rewrite Hu. eexists; split; [reflexivity|]. lia.
  - intros v Hv. rewrite Husers. fold n.
    rewrite find_user_update by apply Hid. rewrite Z.eqb_refl.
    assert (Hv' : find_user (if milestone n
                             then update_user (referrer_id r) (add_coins 50) (users db)
                             else users db) new_id = Some v).
    { destruct (milestone n); [|exact Hv].
      rewrite find_user_update by apply Hid.
      destruct (Z.eqb_spec new_id (referrer_id r)); [congruence | exact Hv]. }
    rewrite Hv'. simpl. eexists; split; [reflexivity|]. simpl. apply or_default_some.
  - intros x Hx. rewrite Husers. fold n.
    rewrite find_user_update by apply Hid.
    assert (Hx' : find_user (if milestone n
                             then update_user (referrer_id r) (add_coins 50) (users db)
                             else users db) x = None).
    { destruct (milestone n); [|exact Hx].
      rewrite find_user_update by apply Hid. rewrite Hx.
      destruct (x =? referrer_id r); reflexivity. }
    rewrite Hx'. destruct (x =? new_id); reflexivity.
  - unfold milestone. rewrite andb_true_iff, Z.ltb_lt, Z.eqb_eq. tauto.
  - repeat split.
Qed.

Lemma process_referral_bonuses_witness :
  process_referral Samples.referral_db "AAAA0003" 9
  = (Samples.referral_db_after, Success 1)
  /\ completed_count (referrals Samples.referral_db_after) 1 = 3
  /\ (exists u', find_user (users Samples.referral_db_after) 1 = Some u'
        /\ or_default (coins u') 0 = 50)
  /\ (exists v', find_user (users Samples.referral_db_after) 9 = Some v'
        /\ or_default (coins v') 0 = 20).
Proof.
  assert (H : process_referral Samples.referral_db "AAAA0003" 9
              = (Samples.referral_db_after, Success 1)) by reflexivity.
  split; [exact H|].
  destruct (process_referral_bonuses _ _ _ _ _ H) as (Hn & Hr & Hv & _).
  split; [exact Hn|]. split.
  - exact (Hr Samples.alice eq_refl).
  - exact (Hv Samples.bob eq_refl).
Defined.

(** C4: [process_referral] fails and leaves the store as it was when the
    code is unknown, when the code belongs to the new user, or when the
    referral is not pending; and once a call with a code has succeeded,
    every later call with that code fails and changes nothing. *)
Theorem process_referral_rejects :
  (forall (db : DB) (code : string) (new_id : Z),
      (find_referral (referrals db) code = None
       \/ exists r, find_referral (referrals db) code = Some r
                    /\ (referrer_id r = new_id \/ status r <> "pending")) ->
      fst (process_referral db code new_id) = db
      /\ is_success (snd (process_referral db code new_id)) = false)
  /\ (forall (db db' : DB) (code : string) (new_id rid other : Z),
        process_referral db code new_id = (db', Success rid) ->
        fst (process_referral db' code other) = db'
        /\ is_success (snd (process_referral db' code other)) = false).
Proof.
  assert (Hrej : forall (db : DB) (code : string) (new_id : Z),
      (find_referral (referrals db) code = None
       \/ exists r, find_referral (referrals db) code = Some r
                    /\ (referrer_id r = new_id \/ status r <> "pending")) ->
      fst (process_referral db code new_id) = db
      /\ is_success (snd (process_referral db code new_id)) = false).
  { intros db code new_id [Hn | (r & Hf & Hr)]; unfold process_referral.
    - rewrite Hn. split; reflexivity.
    - rewrite Hf. destruct (Z.eqb_spec (referrer_id r) new_id) as [E|E];
        [split; reflexivity|].
      destruct Hr as [Hr|Hr]; [contradiction|].
      apply String.eqb_neq in Hr. rewrite Hr. split; reflexivity. }
  split; [exact Hrej|].
  intros db db' code new_id rid other H.
  destruct (process_referral_success _ _ _ _ _ H) as (r & Hf & _ & _ & _ & Hrefs & _).
  apply Hrej. right.
  eexists. split.
  - rewrite Hrefs, find_referral_update by reflexivity. rewrite Hf. reflexivity.
  - right. simpl. discriminate.
Qed.

Lemma process_referral_rejects_witness :
  (fst (process_referral Samples.referral_db "AAAA0003" 1) = Samples.referral_db
   /\ is_success (snd (process_referral Samples.referral_db "AAAA0003" 1)) = false)
  /\ (fst (process_referral Samples.referral_db_after "AAAA0003" 7)
      = Samples.referral_db_after
      /\ is_success (snd (process_referral Samples.referral_db_after "AAAA0003" 7)) = false).
Proof.
  split.
  - apply (proj1 process_referral_rejects). right.
    exists (mkReferral 1 None "AAAA0003" "pending"). split; [reflexivity|].
    left. reflexivity.
  - apply (proj2 process_referral_rejects Samples.referral_db _ _ 9 1 7). reflexivity.
Defined.

End ReferralFacts.

(** ** Quiz completion *)

Module QuizFacts.
Import Store Quiz StoreFacts.

Lemma unlocked_level_ensure (db : DB) (uid : Z) :
  unlocked_level (ensure_user_record db uid) uid = unlocked_level db uid.
Proof.
  unfold unlocked_level. rewrite find_user_ensure.
  destruct (find_user (users db) uid); reflexivity.
Qed.

Section WithConfig.

Variable QUIZ_PASS_THRESHOLD : Z.
Variable QUIZ_ru : LevelQuiz.
Variable QUIZ_others : list (string * LevelQuiz).

Local Abbreviation finish := (finish_quiz QUIZ_PASS_THRESHOLD QUIZ_ru QUIZ_others).
Local Abbreviation total_of lang level :=
  (Z.of_nat (List.length (quiz_questions QUIZ_ru QUIZ_others lang level))).
Local Abbreviation commits := (Quiz.commits QUIZ_ru QUIZ_others).

(** The user rows the database holds after the call. *)
Lemma finish_quiz_users (db : DB) (uid : Z) (lang : string) (correct level : Z) :
  let db0 := ensure_user_record db uid in
  exists u, find_user (users db0) uid = Some u /\
  users (fst (finish db uid lang correct level))
  = if commits lang correct level
    then update_user uid (fun _ =>
           mkUser (telegram_id u)
             (Some (or_default (coins u) 0 + (10 + 5)))
             (if QUIZ_PASS_THRESHOLD <=? correct
              then Some (or_default (quizzes_passed u) 0 + 1) else quizzes_passed u)
             (if or_default (max_unlocked_level u) 1 <? level + 1
              then Some (level + 1) else max_unlocked_level u)
             (scenario_score u) (scenario_badges u)) (users db0)
    else users db0.
Proof.
  intros db0. pose proof (find_user_ensure db uid) as Hf. fold db0 in Hf.
  eexists. split; [exact Hf|].
  unfold finish_quiz, Quiz.commits. fold db0.
  unfold open_session. simpl pending. rewrite Hf.
  set (t := Z.of_nat (List.length (quiz_questions QUIZ_ru QUIZ_others lang level))).
  destruct (0 <? t) eqn:Ht; destruct (correct =? t) eqn:Hc;
    destruct (level <? max_level) eqn:Hl; simpl;
    rewrite ?users_update_leaderboard; reflexivity.
Qed.

(** One completion: the stored level afterwards. *)
Lemma finish_quiz_stored (db : DB) (uid : Z) (lang : string) (correct level : Z) :
  stored_level (fst (finish db uid lang correct level)) uid
  = if commits lang correct level && (unlocked_level db uid <? level + 1)
    then Some (level + 1) else stored_level (ensure_user_record db uid) uid.
Proof.
  destruct (finish_quiz_users db uid lang correct level) as (u & Hu & Hus).
  rewrite <- (unlocked_level_ensure db uid).
  unfold stored_level at 1. rewrite Hus. unfold unlocked_level, stored_level. rewrite Hu.
  destruct (commits lang correct level); simpl; [|rewrite Hu; reflexivity].
  rewrite find_user_update by (intros; simpl; exact (find_user_id _ _ _ Hu)).
  rewrite Z.eqb_refl, Hu. simpl.
  destruct (or_default (max_unlocked_level u) 1 <? level + 1); reflexivity.
Qed.

Lemma unlocked_of_stored (db : DB) (uid : Z) :
  unlocked_level db uid = or_default (stored_level db uid) 1.
Proof.
  unfold unlocked_level, stored_level. destruct (find_user (users db) uid); reflexivity.
Qed.

Lemma finish_quiz_monotone (db : DB) (uid : Z) (lang : string) (correct level : Z) :
  unlocked_level db uid <= unlocked_level (fst (finish db uid lang correct level)) uid.
Proof.
  rewrite (unlocked_of_stored (fst _)), finish_quiz_stored.
  destruct (commits lang correct level && (unlocked_level db uid <? level + 1)) eqn:E.
  - apply andb_true_iff in E. destruct E as [_ E]. apply Z.ltb_lt in E.
    unfold or_default. destruct (Z.eqb_spec (level + 1) 0); lia.
  - rewrite <- unlocked_of_stored, unlocked_level_ensure. lia.
Qed.

(** A language other than ["ru"] with a non-empty entry in [QUIZ] is given
    that entry whole, every level of it; the others fall back to ["ru"]. *)
Lemma lang_quiz_entry (lang : string) :
  lang_quiz QUIZ_ru QUIZ_others lang
  = match assoc String.eqb lang QUIZ_others with
    | Some q => if String.eqb lang "ru" then QUIZ_ru
                else match q with [] => QUIZ_ru | _ => q end
    | None => QUIZ_ru
    end.
Proof.
  unfold lang_quiz. destruct (String.eqb lang "ru");
    destruct (assoc String.eqb lang QUIZ_others) as [[|x q]|]; reflexivity.
Qed.

(** C2: over any sequence of quiz completions of a user the unlocked
    level never decreases; a completion changes it only when the score
    is perfect on a non-empty quiz at a level below the maximum and the
    next level exceeds the level held, and the stored level is then the
    next level; a completion that is not perfect leaves it as it was. *)
Theorem max_unlocked_level_monotone :
  (forall (db : DB) (uid : Z) (attempts : list (string * Z * Z)),
      unlocked_level db uid
      <= unlocked_level
           (run_quizzes QUIZ_PASS_THRESHOLD QUIZ_ru QUIZ_others db uid attempts) uid)
  /\ (forall (db : DB) (uid : Z) (lang : string) (correct level : Z),
        let db' := fst (finish db uid lang correct level) in
        (unlocked_level db' uid <> unlocked_level db uid ->
           correct = total_of lang level /\ 0 < total_of lang level
           /\ level < max_level
           /\ unlocked_level db uid < level + 1
           /\ stored_level db' uid = Some (level + 1))
        /\ (correct <> total_of lang level ->
              unlocked_level db' uid = unlocked_level db uid)).
Proof.
  split.
  - intros db uid attempts. revert db.
    induction attempts as [|[[lang correct] level] r IH]; intros db; simpl; [lia|].
    etransitivity; [apply (finish_quiz_monotone db uid lang correct level)|].
    apply IH.
  - intros db uid lang correct level db'.
    assert (Hs := finish_quiz_stored db uid lang correct level). fold db' in Hs.
    assert (Hu : unlocked_level db' uid = or_default (stored_level db' uid) 1)
      by apply unlocked_of_stored.
    rewrite Hs in Hu.
    unfold Quiz.commits in Hs, Hu.
    destruct (0 <? total_of lang level) eqn:Ht;
      destruct (correct =? total_of lang level) eqn:Hc;
      destruct (level <? max_level) eqn:Hl;
      destruct (unlocked_level db uid <? level + 1) eqn:Hm; simpl in Hs, Hu;
      try (rewrite <- unlocked_of_stored, unlocked_level_ensure in Hu);
      (split; [intros Hne; try contradiction | intros Hc'; try assumption]).
    + apply Z.ltb_lt in Ht, Hl, Hm. apply Z.eqb_eq in Hc. repeat split; assumption.
    + apply Z.eqb_eq in Hc. contradiction.
Qed.

(** What the function reports: the pass flag and the reward are computed
    as documented, whatever is stored afterwards. *)
Lemma finish_quiz_reports (db : DB) (uid : Z) (lang : string) (correct level : Z) :
  let res := snd (finish db uid lang correct level) in
  let t := total_of lang level in
  total res = t
  /\ passed res = (QUIZ_PASS_THRESHOLD <=? correct)
  /\ earned res = 10 + (if (0 <? t) && (correct =? t) then 5 else 0).
Proof.
  unfold finish_quiz.
  destruct (find_user _ uid); simpl; repeat split.
Qed.

(** Outside the perfect-score branch nothing that [finish_quiz] wrote to the
    user row reaches the database. *)
Lemma finish_quiz_dropped (db : DB) (uid : Z) (lang : string) (correct level : Z) :
  commits lang correct level = false ->
  users (fst (finish db uid lang correct level)) = users (ensure_user_record db uid).
Proof.
  intros H. destruct (finish_quiz_users db uid lang correct level) as (u & _ & Hus).
  rewrite Hus, H. reflexivity.
Qed.

(** Inside the perfect-score branch the row is stored with the coins raised
    by the reward of 15 and the pass counted. *)
Lemma finish_quiz_stored_when_perfect (db : DB) (uid : Z) (lang : string)
    (correct level : Z) :
  commits lang correct level = true ->
  exists u u',
    find_user (users (ensure_user_record db uid)) uid = Some u
    /\ find_user (users (fst (finish db uid lang correct level))) uid = Some u'
    /\ coins u' = Some (or_default (coins u) 0 + 15)
    /\ quizzes_passed u'
       = if QUIZ_PASS_THRESHOLD <=? correct
         then Some (or_default (quizzes_passed u) 0 + 1) else quizzes_passed u.
Proof.
  intros H. destruct (finish_quiz_users db uid lang correct level) as (u & Hu & Hus).
  rewrite H in Hus. exists u. eexists. split; [exact Hu|]. split.
  - rewrite Hus, find_user_update by (intros; simpl; exact (find_user_id _ _ _ Hu)).
    rewrite Z.eqb_refl, Hu. reflexivity.
  - split; reflexivity.
Qed.

End WithConfig.

Lemma max_unlocked_level_monotone_witness :
  stored_level (fst (finish_quiz 3 Samples.quiz_ru Samples.quiz_others Samples.quiz_db
                       1 "ru" 3 1)) 1 = Some 2
  /\ stored_level (fst (finish_quiz 3 Samples.quiz_ru Samples.quiz_others Samples.quiz_db
                          1 "en" 3 1)) 1 = Some 2
  /\ unlocked_level (fst (finish_quiz 3 Samples.quiz_ru Samples.quiz_others Samples.quiz_db
                            1 "kk" 2 1)) 1
     = unlocked_level Samples.quiz_db 1.
Proof.
  split; [|split].
  - destruct (proj2 (max_unlocked_level_monotone 3 Samples.quiz_ru Samples.quiz_others)
                Samples.quiz_db 1 "ru" 3 1) as [H _].
    apply H. vm_compute. discriminate.
  - destruct (proj2 (max_unlocked_level_monotone 3 Samples.quiz_ru Samples.quiz_others)
                Samples.quiz_db 1 "en" 3 1) as [H _].
    apply H. vm_compute. discriminate.
  - destruct (proj2 (max_unlocked_level_monotone 3 Samples.quiz_ru Samples.quiz_others)
                Samples.quiz_db 1 "kk" 2 1) as [_ H].
    apply H. vm_compute. discriminate.
Defined.

(** C1 where the code departs from it. With the threshold 3 and the
    catalog's three questions per level: a perfect attempt at the top level 3
    is reported as passed with a reward of 15 coins, and an attempt at level 1
    with 2 of 3 correct is reported with a reward of 10 coins; with five
    questions, 3 of 5 correct is reported as passed with a reward of 10
    coins. In all three cases the stored record keeps the old balance and
    the old count of passed quizzes, because the commit is only reached on a
    perfect score below the top level. *)
Theorem finish_quiz_reward_not_persisted :
  let top := finish_quiz 3 Samples.quiz_ru [] Samples.quiz_db 1 "ru" 3 3 in
  let low := finish_quiz 3 Samples.quiz_ru [] Samples.quiz_db 1 "ru" 2 1 in
  let mid := finish_quiz 3 Samples.quiz_five [] Samples.quiz_db 1 "ru" 3 1 in
  (total (snd top) = 3 /\ passed (snd top) = true /\ earned (snd top) = 15
   /\ find_user (users (fst top)) 1 = Some Samples.alice)
  /\ (total (snd low) = 3 /\ passed (snd low) = false /\ earned (snd low) = 10
      /\ find_user (users (fst low)) 1 = Some Samples.alice)
  /\ (total (snd mid) = 5 /\ passed (snd mid) = true /\ earned (snd mid) = 10
      /\ find_user (users (fst mid)) 1 = Some Samples.alice)
  /\ coins Samples.alice = Some 0 /\ quizzes_passed Samples.alice = Some 0.
Proof. vm_compute. repeat split. Qed.

End QuizFacts.

(** ** Scenario walk *)

Module ScenarioFacts.
Import Store Scenario.

(** Concluding on the synthetic ending grants nothing and reports a fail
    with the given text. *)
Lemma conclude_fallback (db : DB) (ud : UserData) (uid : Z) (meta : Meta) (txt : string) :
  exists nav,
    conclude_scenario db ud uid meta (fallback_ending txt)
    = (db, mkUD None nav, mkConclusion "fail" txt 0 None).
Proof.
  unfold conclude_scenario, fallback_ending. simpl.
  eexists. reflexivity.
Qed.

(** C6: when the option chosen in a scenario walk has an empty [next] or one
    that names no existing node, the handler concludes the walk with the
    outcome fail and the option's own feedback as the text; it grants no
    reward, leaves the database as it was, discards the scenario state, and
    does not raise. *)
Theorem scenario_dangling_next_concludes_fail :
  forall (catalog : list (string * Meta)) (db : DB) (ud : UserData) (uid : Z)
         (scenario_id node_id : string) (choice_index : Z)
         (state : State) (meta : Meta) (nd : Node) (opts : list Choice) (opt : Choice),
    scenario_state ud = Some state ->
    Quiz.assoc String.eqb scenario_id catalog = Some meta ->
    get_node (nodes meta) node_id = Some nd ->
    node_truthy nd = true ->
    options nd = Some opts ->
    choice_index < Z.of_nat (List.length opts) ->
    py_index opts choice_index = Some opt ->
    dangling meta opt ->
    exists ud',
      scenario_option_handler catalog db ud uid scenario_id node_id choice_index
      = (db, ud', Concluded (mkConclusion "fail" (get_str (feedback opt) "") 0 None))
      /\ scenario_state ud' = None.
Proof.
  intros catalog db ud uid sid node_id i state meta nd opts opt
         Hst Hmeta Hnd Htruthy Hopts Hlt Hidx Hd.
  unfold scenario_option_handler.
  rewrite Hst, Hmeta, Hnd, Htruthy, Hopts. simpl negb. cbv iota.
  destruct (Z.leb_spec (Z.of_nat (List.length opts)) i) as [Hge|_]; [lia|].
  rewrite Hidx.
  set (ud1 := mkUD _ _).
  destruct (conclude_fallback db ud1 uid meta (get_str (feedback opt) "")) as (nav & Hc).
  assert (Hgoal : let '(db0, ud0, c) :=
                    conclude_scenario db ud1 uid meta
                      (fallback_ending (get_str (feedback opt) "")) in
                  exists ud', (db0, ud0, Concluded c)
                    = (db, ud', Concluded (mkConclusion "fail" (get_str (feedback opt) "") 0 None))
                    /\ scenario_state ud' = None).
  { rewrite Hc. eexists. split; reflexivity. }
  destruct Hd as [Hn | [Hn | (k & Hn & Hk)]]; rewrite Hn.
  - exact Hgoal.
  - exact Hgoal.
  - destruct k as [|c k]; [exact Hgoal|].
    destruct Hk as [Hk | (n & Hk & Hf)]; rewrite Hk; [exact Hgoal|].
    rewrite Hf. simpl negb. cbv iota. exact Hgoal.
Qed.

Lemma scenario_dangling_next_concludes_fail_witness :
  exists ud',
    scenario_option_handler [("phishing", Samples.phishing)] Samples.quiz_db
      Samples.walking 1 "phishing" "start" 0
    = (Samples.quiz_db, ud',
       Concluded (mkConclusion "fail" "The link was a trap." 0 None))
    /\ scenario_state ud' = None.
Proof.
  apply (scenario_dangling_next_concludes_fail
           [("phishing", Samples.phishing)] Samples.quiz_db Samples.walking 1
           "phishing" "start" 0
           (mkState (Some "phishing") (Some "start") []) Samples.phishing
           (mkNode (Some "decision") (Some "You get an SMS.") None None
              (Some [Samples.risky_choice;
                     mkChoice (Some "Ignore") (Some "Good.") (Some "safe") (Some "win")]))
           [Samples.risky_choice;
            mkChoice (Some "Ignore") (Some "Good.") (Some "safe") (Some "win")]
           Samples.risky_choice);
    try reflexivity.
  right. right. exists "ghost". split; [reflexivity|]. left. reflexivity.
Defined.

End ScenarioFacts.

(** ** Strings and sets of strings *)

Module PyStrFacts.
Import PyStr.

Lemma compare_refl (a : pystr) : compare a a = Eq.
Proof. induction a as [|x a IH]; simpl; [reflexivity|]. rewrite N.compare_refl. exact IH. Qed.

Lemma compare_eq (a b : pystr) : compare a b = Eq -> a = b.
Proof.
  revert b. induction a as [|x a IH]; intros [|y b]; simpl; try discriminate; [reflexivity|].
  destruct (N.compare_spec x y) as [E|E|E]; try discriminate.
  intros H. rewrite E, (IH b H). reflexivity.
Qed.

Lemma compare_antisym (a b : pystr) : compare b a = CompOpp (compare a b).
Proof.
  revert b. induction a as [|x a IH]; intros [|y b]; simpl; try reflexivity.
  rewrite (N.compare_antisym x y). destruct (x ?= y)%N; simpl; [apply IH | reflexivity ..].
Qed.

Lemma lt_trans (a b c : pystr) : lt a b -> lt b c -> lt a c.
Proof.
  unfold lt. revert b c.
  induction a as [|x a IH]; intros [|y b] [|z c]; simpl; try discriminate; try reflexivity.
  destruct (N.compare_spec x y) as [E1|E1|E1]; try discriminate;
    destruct (N.compare_spec y z) as [E2|E2|E2]; try discriminate; intros H1 H2; subst.
  - rewrite N.compare_refl. eapply IH; eauto.
  - apply N.compare_lt_iff in E2. rewrite E2. reflexivity.
  - apply N.compare_lt_iff in E1. rewrite E1. reflexivity.
  - assert (E : (x < z)%N) by lia. apply N.compare_lt_iff in E. rewrite E. reflexivity.
Qed.

Lemma lt_irrefl (a : pystr) : ~ lt a a.
Proof. unfold lt. rewrite compare_refl. discriminate. Qed.


Lemma eqb_refl (a : pystr) : eqb a a = true.
Proof. unfold eqb. rewrite compare_refl. reflexivity. Qed.

Lemma eqb_eq (a b : pystr) : eqb a b = true <-> a = b.
Proof.
  unfold eqb. split.
  - destruct (compare a b) eqn:E; try discriminate. intros _. apply compare_eq, E.
  - intros ->. rewrite compare_refl. reflexivity.
Qed.

(** *** Sets as ascending lists *)

Lemma set_add_In (x y : pystr) (s : pyset) : In x (set_add y s) <-> x = y \/ In x s.
Proof.
  induction s as [|z r IH]; simpl; [intuition congruence|].
  destruct (compare y z) eqn:E; simpl.
  - apply compare_eq in E. subst. intuition congruence.
  - intuition congruence.
  - rewrite IH. intuition congruence.
Qed.

Lemma set_add_ascending (x : pystr) (s : pyset) : ascending s -> ascending (set_add x s).
Proof.
  unfold ascending. induction s as [|z r IH]; simpl; intros H.
  - constructor; constructor.
  - inversion H as [|? ? Hr Hz]; subst.
    destruct (compare x z) eqn:E.
    + exact H.
    + constructor; [exact H|]. constructor; [exact E|].
      eapply Forall_impl; [|exact Hz]. intros a Ha. eapply lt_trans; eauto.
    + constructor; [apply IH, Hr|].
      apply Forall_forall. intros a Ha. apply set_add_In in Ha. destruct Ha as [->|Ha].
      * unfold lt. rewrite compare_antisym, E. reflexivity.
      * rewrite Forall_forall in Hz. apply Hz, Ha.
Qed.

Lemma set_of_list_ascending (l : list pystr) : ascending (set_of_list l).
Proof.
  induction l as [|x l IH]; simpl; [constructor|]. apply set_add_ascending, IH.
Qed.

Lemma set_of_list_In (x : pystr) (l : list pystr) : In x (set_of_list l) <-> In x l.
Proof.
  induction l as [|y l IH]; simpl; [tauto|]. rewrite set_add_In, IH. intuition congruence.
Qed.


(** An ascending list already is the set of its elements. *)
Lemma set_of_list_id (s : pyset) : ascending s -> set_of_list s = s.
Proof.
  unfold ascending. induction s as [|x r IH]; simpl; intros H; [reflexivity|].
  inversion H as [|? ? Hr Hx]; subst. rewrite (IH Hr).
  destruct r as [|y r']; [reflexivity|]. simpl.
  inversion Hx as [|? ? Hxy _]; subst. unfold lt in Hxy. rewrite Hxy. reflexivity.
Qed.

(** Two sets with the same elements are the same list. *)
Lemma ascending_ext (s t : pyset) :
  ascending s -> ascending t -> (forall x, In x s <-> In x t) -> s = t.
Proof.
  unfold ascending. revert t. induction s as [|a s IH]; intros [|b t] Hs Ht Hext.
  - reflexivity.
  - exfalso. apply (proj2 (Hext b)). left. reflexivity.
  - exfalso. apply (proj1 (Hext a)). left. reflexivity.
  - inversion Hs as [|? ? Hs' Ha]; inversion Ht as [|? ? Ht' Hb]; subst.
    rewrite Forall_forall in Ha, Hb.
    assert (E : a = b).
    { destruct (proj1 (Hext a) (or_introl eq_refl)) as [E|Hin]; [congruence|].
      destruct (proj2 (Hext b) (or_introl eq_refl)) as [E|Hin']; [congruence|].
      exfalso. apply (lt_irrefl a). eapply lt_trans; [apply Ha, Hin' | apply Hb, Hin]. }
    subst b. f_equal. apply IH; try assumption.
    intros x. split; intros Hx.
    + destruct (proj1 (Hext x) (or_intror Hx)) as [E|Hin]; [|exact Hin].
      subst x. exfalso. apply (lt_irrefl a), Ha, Hx.
    + destruct (proj2 (Hext x) (or_intror Hx)) as [E|Hin]; [|exact Hin].
      subst x. exfalso. apply (lt_irrefl a), Hb, Hx.
Qed.

(** *** Splitting, joining and stripping *)

Lemma split_not_nil (s : pystr) : split s <> [].
Proof.
  induction s as [|c r IH]; simpl; [discriminate|].
  destruct (c =? comma)%N; [discriminate|]. destruct (split r); discriminate.
Qed.

Lemma split_app_comma (a b : pystr) : split (a ++ comma :: b) = split a ++ split b.
Proof.
  induction a as [|c a IH]; simpl; [reflexivity|].
  destruct (c =? comma)%N; [rewrite IH; reflexivity|].
  rewrite IH. destruct (split a) eqn:E; [exfalso; eapply split_not_nil; eauto|].
  reflexivity.
Qed.

Lemma split_join (l : list pystr) : l <> [] -> split (join l) = flat_map split l.
Proof.
  induction l as [|x l IH]; [congruence|]. intros _.
  destruct l as [|y l].
  - simpl. rewrite app_nil_r. reflexivity.
  - change (join (x :: y :: l)) with (x ++ comma :: join (y :: l)).
    rewrite split_app_comma, IH by discriminate. reflexivity.
Qed.

Lemma split_no_comma (s p : pystr) : In p (split s) -> ~ In comma p.
Proof.
  revert p. induction s as [|c r IH]; simpl; intros p Hp.
  - destruct Hp as [<-|[]]. intros [].
  - destruct (N.eqb_spec c comma) as [E|E].
    + destruct Hp as [<-|Hp]; [intros []|]. apply IH, Hp.
    + destruct (split r) as [|q qs] eqn:Es; simpl in Hp.
      * destruct Hp as [<-|[]]. intros [H|[]]. congruence.
      * destruct Hp as [<-|Hp].
        -- intros [H|H]; [congruence|]. apply (IH q); [left; reflexivity | exact H].
        -- apply IH. right. exact Hp.
Qed.

Lemma split_comma_free (x : pystr) : ~ In comma x -> split x = [x].
Proof.
  induction x as [|c r IH]; simpl; intros H; [reflexivity|].
  destruct (N.eqb_spec c comma) as [E|E]; [exfalso; apply H; left; exact E|].
  rewrite IH by (intros H'; apply H; right; exact H'). reflexivity.
Qed.

Lemma lstrip_In (c : N) (s : pystr) : In c (lstrip s) -> In c s.
Proof.
  induction s as [|d r IH]; simpl; [tauto|].
  destruct (isspace d); simpl; tauto.
Qed.

Lemma rstrip_In (c : N) (s : pystr) : In c (rstrip s) -> In c s.
Proof.
  induction s as [|d r IH]; simpl; [tauto|].
  destruct (rstrip r) as [|e r'].
  - destruct (isspace d); simpl; tauto.
  - simpl in *. tauto.
Qed.

Lemma strip_In (c : N) (s : pystr) : In c (strip s) -> In c s.
Proof. unfold strip. intros H. apply lstrip_In, rstrip_In, H. Qed.

Lemma lstrip_starts_clean (s : pystr) : starts_clean (lstrip s).
Proof.
  induction s as [|c r IH]; simpl; [exact I|].
  destruct (isspace c) eqn:E; [exact IH | exact E].
Qed.

Lemma lstrip_clean (s : pystr) : starts_clean s -> lstrip s = s.
Proof. destruct s as [|c r]; simpl; [reflexivity|]. intros ->. reflexivity. Qed.

Lemma rstrip_starts_clean (s : pystr) : starts_clean s -> starts_clean (rstrip s).
Proof.
  destruct s as [|c r]; simpl; [exact id|]. intros E.
  destruct (rstrip r); [rewrite E|]; exact E.
Qed.

Lemma rstrip_idem (s : pystr) : rstrip (rstrip s) = rstrip s.
Proof.
  induction s as [|c r IH]; simpl; [reflexivity|].
  destruct (rstrip r) as [|e r'] eqn:E.
  - destruct (isspace c) eqn:Ec; simpl; [reflexivity|]. rewrite Ec. reflexivity.
  - change (rstrip (c :: e :: r')) with
      (match rstrip (e :: r') with [] => if isspace c then [] else [c] | x => c :: x end).
    rewrite IH. reflexivity.
Qed.

Lemma strip_idem (s : pystr) : strip (strip s) = strip s.
Proof.
  unfold strip.
  rewrite (lstrip_clean (rstrip (lstrip s)))
    by apply rstrip_starts_clean, lstrip_starts_clean.
  apply rstrip_idem.
Qed.

End PyStrFacts.

(** ** Badges *)

Module BadgeFacts.
Import PyStr Badges PyStrFacts Store Ledger StoreFacts.

Lemma parse_badges_pieces (s : pystr) : parse_badges s = pieces s.
Proof. unfold parse_badges. destruct s; reflexivity. Qed.

Lemma pieces_join (l : list pystr) : pieces (join l) = flat_map pieces l.
Proof.
  destruct l as [|x l]; [reflexivity|].
  unfold pieces at 1. rewrite split_join by discriminate.
  generalize (x :: l). clear. intros l.
  induction l as [|y l IH]; simpl; [reflexivity|].
  rewrite map_app, filter_app, IH. reflexivity.
Qed.

(** A parsed badge parses to itself. *)
Lemma parsed_is_atom (s e : pystr) : In e (parse_badges s) -> pieces e = [e].
Proof.
  rewrite parse_badges_pieces. unfold pieces at 1. intros H.
  apply filter_In in H. destruct H as [H Hne].
  apply in_map_iff in H. destruct H as (p & <- & Hp).
  unfold pieces. rewrite split_comma_free.
  - simpl. rewrite strip_idem, Hne. reflexivity.
  - intros Hc. apply (split_no_comma s p Hp). apply strip_In, Hc.
Qed.

Lemma parsed_nonempty (s e : pystr) : In e (parse_badges s) -> nonempty e = true.
Proof.
  rewrite parse_badges_pieces. unfold pieces. intros H.
  apply filter_In in H. apply H.
Qed.

Lemma add_badge_joined (s b : pystr) : add_badge s b = join (joined s b).
Proof. unfold add_badge, joined, sorted. destruct (nonempty b); reflexivity. Qed.


(** The badges held after [add_badge]: those held before and those the new
    badge parses to. *)
Lemma parse_add_badge (s b x : pystr) :
  In x (parse_badges (add_badge s b))
  <-> In x (parse_badges s) \/ (nonempty b = true /\ In x (pieces b)).
Proof.
  rewrite add_badge_joined, parse_badges_pieces, pieces_join, in_flat_map.
  unfold joined. split.
  - intros (e & He & Hx). destruct (nonempty b) eqn:Eb.
    + apply -> set_add_In in He. destruct He as [->|He]; [right; tauto|].
      apply -> set_of_list_In in He. rewrite (parsed_is_atom _ _ He) in Hx.
      destruct Hx as [<-|[]]. left. exact He.
    + apply -> set_of_list_In in He. rewrite (parsed_is_atom _ _ He) in Hx.
      destruct Hx as [<-|[]]. left. exact He.
  - intros [Hx | [Eb Hx]].
    + exists x. rewrite (parsed_is_atom _ _ Hx). split; [|left; reflexivity].
      destruct (nonempty b); [apply set_add_In; right|]; apply set_of_list_In, Hx.
    + exists b. rewrite Eb. split; [apply set_add_In; left; reflexivity | exact Hx].
Qed.


(** The empty string and every string [add_badge] writes for a well-formed
    badge are in the written form. *)
Lemma canonical_empty : canonical [].
Proof. reflexivity. Qed.







End BadgeFacts.

(** ** Leaderboard ranking *)

Module LeaderboardFacts.
Import Store Leaderboard.

(** *** The query: rows of a period with their positions *)

Lemma enumerate_from_In {A : Type} (l : list A) (n i : nat) (x : A) :
  In (i, x) (enumerate_from n l) <-> (n <= i)%nat /\ nth_error l (i - n) = Some x.
Proof.
  revert n. induction l as [|y l IH]; intros n; simpl.
  - split; [tauto|]. intros [_ H]. destruct (i - n)%nat; discriminate.
  - rewrite IH. split.
    + intros [E | [Hle Hn]].
      * injection E as -> ->. rewrite Nat.sub_diag. split; [lia | reflexivity].
      * split; [lia|]. replace (i - n)%nat with (S (i - S n)) by lia. exact Hn.
    + intros [Hle Hn]. destruct (Nat.eq_dec i n) as [->|Hne].
      * rewrite Nat.sub_diag in Hn. left. simpl in Hn. congruence.
      * right. split; [lia|]. replace (i - n)%nat with (S (i - S n)) in Hn by lia. exact Hn.
Qed.

Lemma enumerate_from_sorted {A : Type} (l : list A) (n : nat) :
  StronglySorted (fun x y : nat * A => (fst x < fst y)%nat) (enumerate_from n l).
Proof.
  revert n. induction l as [|y l IH]; intros n; simpl; constructor; [apply IH|].
  apply Forall_forall. intros [i x] H. apply enumerate_from_In in H. simpl. lia.
Qed.

Lemma filter_sorted {A : Type} (R : A -> A -> Prop) (f : A -> bool) (l : list A) :
  StronglySorted R l -> StronglySorted R (filter f l).
Proof.
  induction 1 as [|x l Hl IH Hx]; simpl; [constructor|].
  destruct (f x); [|exact IH]. constructor; [exact IH|].
  apply Forall_forall. intros y Hy. apply filter_In in Hy.
  rewrite Forall_forall in Hx. apply Hx, Hy.
Qed.

Lemma filter_by_period_In (p : string) (tbl : list LeaderboardEntry) (i : nat)
    (e : LeaderboardEntry) :
  In (i, e) (filter_by_period p tbl) <-> nth_error tbl i = Some e /\ period e = p.
Proof.
  unfold filter_by_period. rewrite filter_In, enumerate_from_In. simpl.
  rewrite Nat.sub_0_r, String.eqb_eq. intuition lia.
Qed.

Lemma filter_by_period_sorted (p : string) (tbl : list LeaderboardEntry) :
  StronglySorted (fun x y : nat * LeaderboardEntry => (fst x < fst y)%nat)
    (filter_by_period p tbl).
Proof. apply filter_sorted, enumerate_from_sorted. Qed.

(** *** The result of [order_by_score_desc]: by descending score, equal scores in table order *)

Lemma insert_desc_perm (x : nat * LeaderboardEntry) (l : list (nat * LeaderboardEntry)) :
  Permutation (insert_desc x l) (x :: l).
Proof.
  induction l as [|y r IH]; simpl; [reflexivity|].
  destruct (score (snd x) <? score (snd y)); [|reflexivity].
  rewrite IH. apply perm_swap.
Qed.

Lemma order_perm (l : list (nat * LeaderboardEntry)) :
  Permutation (order_by_score_desc l) l.
Proof.
  induction l as [|x l IH]; simpl; [reflexivity|].
  rewrite insert_desc_perm. constructor. exact IH.
Qed.

Lemma insert_desc_sorted (x : nat * LeaderboardEntry) (l : list (nat * LeaderboardEntry)) :
  StronglySorted outranks l ->
  Forall (fun y => (fst x < fst y)%nat) l ->
  StronglySorted outranks (insert_desc x l).
Proof.
  induction 1 as [|y r Hr IH Hy]; intros Hx; simpl.
  - constructor; constructor.
  - inversion Hx as [|? ? Hxy Hxr]; subst.
    destruct (Z.ltb_spec (score (snd x)) (score (snd y))) as [Hlt|Hge].
    + constructor; [apply IH, Hxr|].
      apply Forall_forall. intros z Hz.
      apply (Permutation_in _ (insert_desc_perm x r)) in Hz. destruct Hz as [<-|Hz].
      * left. exact Hlt.
      * rewrite Forall_forall in Hy. apply Hy, Hz.
    + constructor; [constructor; assumption|].
      assert (Hxy' : outranks x y) by (unfold outranks; lia).
      constructor; [exact Hxy'|].
      apply Forall_forall. intros z Hz.
      rewrite Forall_forall in Hy, Hxr. specialize (Hy z Hz). specialize (Hxr z Hz).
      unfold outranks in *. lia.
Qed.

Lemma order_sorted (l : list (nat * LeaderboardEntry)) :
  StronglySorted (fun x y : nat * LeaderboardEntry => (fst x < fst y)%nat) l ->
  StronglySorted outranks (order_by_score_desc l).
Proof.
  induction 1 as [|x l Hl IH Hx]; simpl; [constructor|].
  apply insert_desc_sorted; [exact IH|].
  apply Forall_forall. intros y Hy.
  apply (Permutation_in _ (order_perm l)) in Hy.
  rewrite Forall_forall in Hx. apply Hx, Hy.
Qed.

Lemma sorted_fst_NoDup {A : Type} (l : list (nat * A)) :
  StronglySorted (fun x y : nat * A => (fst x < fst y)%nat) l -> NoDup (map fst l).
Proof.
  induction 1 as [|x l Hl IH Hx]; simpl; constructor; [|exact IH].
  intros Hin. apply in_map_iff in Hin. destruct Hin as (y & E & Hy).
  rewrite Forall_forall in Hx. specialize (Hx y Hy). lia.
Qed.

(** *** Writing the ranks *)

Lemma nth_set_rank (i j : nat) (r : Z) (tbl : list LeaderboardEntry) :
  nth_error (set_rank i r tbl) j
  = if Nat.eqb j i then option_map (with_rank r) (nth_error tbl j) else nth_error tbl j.
Proof.
  revert i j. induction tbl as [|e t IH]; intros i j; simpl.
  - destruct i as [|i]; destruct j as [|j]; simpl; try reflexivity.
    destruct (Nat.eqb j i); reflexivity.
  - destruct i as [|i]; destruct j as [|j]; simpl; try reflexivity. apply IH.
Qed.

Lemma assign_ranks_other (l : list nat) (r : Z) (tbl : list LeaderboardEntry) (j : nat) :
  ~ In j l -> nth_error (assign_ranks r l tbl) j = nth_error tbl j.
Proof.
  revert r tbl. induction l as [|i l IH]; intros r tbl Hj; simpl; [reflexivity|].
  rewrite IH by (intros H; apply Hj; right; exact H).
  rewrite nth_set_rank. destruct (Nat.eqb_spec j i) as [->|_]; [|reflexivity].
  exfalso. apply Hj. left. reflexivity.
Qed.

Lemma assign_ranks_at (l : list nat) (r : Z) (tbl : list LeaderboardEntry) (k j : nat) :
  NoDup l -> nth_error l k = Some j ->
  nth_error (assign_ranks r l tbl) j
  = option_map (with_rank (r + Z.of_nat k)) (nth_error tbl j).
Proof.
  revert r tbl k. induction l as [|i l IH]; intros r tbl k Hnd Hk.
  - destruct k; discriminate.
  - inversion Hnd as [|? ? Hi Hnd']; subst. destruct k as [|k]; simpl in *.
    + injection Hk as ->. rewrite assign_ranks_other by exact Hi.
      rewrite nth_set_rank, Nat.eqb_refl, Z.add_0_r. reflexivity.
    + rewrite (IH _ _ k Hnd' Hk), nth_set_rank.
      destruct (Nat.eqb_spec j i) as [->|_].
      * exfalso. apply Hi. eapply nth_error_In, Hk.
      * f_equal. f_equal. lia.
Qed.

Lemma nth_error_map_fst {A B : Type} (l : list (A * B)) (k : nat) (a : A) (b : B) :
  nth_error l k = Some (a, b) -> nth_error (map fst l) k = Some a.
Proof. intros H. rewrite nth_error_map, H. reflexivity. Qed.

Lemma ranking_In (p : string) (tbl : list LeaderboardEntry) (i : nat) (e : LeaderboardEntry) :
  In (i, e) (ranking p tbl) <-> nth_error tbl i = Some e /\ period e = p.
Proof.
  rewrite <- filter_by_period_In. unfold ranking. split; intros H.
  - eapply Permutation_in; [apply order_perm | exact H].
  - eapply Permutation_in; [symmetry; apply order_perm | exact H].
Qed.

Lemma ranking_NoDup (p : string) (tbl : list LeaderboardEntry) :
  NoDup (map fst (ranking p tbl)).
Proof.
  eapply Permutation_NoDup.
  - apply Permutation_map. symmetry. apply order_perm.
  - apply sorted_fst_NoDup, filter_by_period_sorted.
Qed.

Lemma ranking_sorted (p : string) (tbl : list LeaderboardEntry) :
  StronglySorted outranks (ranking p tbl).
Proof. apply order_sorted, filter_by_period_sorted. Qed.

(** A row of the period gets its place in the ranking as rank; the other
    rows are not touched. *)
Lemma rank_period_at (p : string) (tbl : list LeaderboardEntry) (k i : nat)
    (e : LeaderboardEntry) :
  nth_error (ranking p tbl) k = Some (i, e) ->
  nth_error (rank_period tbl p) i = Some (with_rank (1 + Z.of_nat k) e).
Proof.
  intros Hk. unfold rank_period.
  rewrite (assign_ranks_at _ _ _ k i (ranking_NoDup p tbl) (nth_error_map_fst _ _ _ _ Hk)).
  apply nth_error_In, ranking_In in Hk. destruct Hk as [-> _]. reflexivity.
Qed.

Lemma rank_period_other (p : string) (tbl : list LeaderboardEntry) (i : nat) :
  ~ In i (map fst (ranking p tbl)) ->
  nth_error (rank_period tbl p) i = nth_error tbl i.
Proof. intros H. unfold rank_period. apply assign_ranks_other, H. Qed.

Lemma rerank_In (l : list (nat * LeaderboardEntry)) (r : Z) (x : nat * LeaderboardEntry) :
  In x (rerank r l)
  <-> exists k e, nth_error l k = Some (fst x, e) /\ snd x = with_rank (r + Z.of_nat k) e.
Proof.
  revert r. induction l as [|[i e] l IH]; intros r; simpl.
  - split; [tauto|]. intros (k & e & H & _). destruct k; discriminate.
  - rewrite IH. split.
    + intros [<- | (k & e' & Hk & Hx)].
      * exists 0%nat, e. simpl. rewrite Z.add_0_r. split; reflexivity.
      * exists (S k), e'. simpl. split; [exact Hk|]. rewrite Hx. f_equal. lia.
    + intros (k & e' & Hk & Hx). destruct k as [|k]; simpl in Hk.
      * left. injection Hk as -> ->. rewrite Z.add_0_r in Hx.
        destruct x; simpl in *. congruence.
      * right. exists k, e'. split; [exact Hk|]. rewrite Hx. f_equal. lia.
Qed.

Lemma rerank_fst (l : list (nat * LeaderboardEntry)) (r : Z) :
  map fst (rerank r l) = map fst l.
Proof.
  revert r. induction l as [|[i e] l IH]; intros r; simpl; [reflexivity|].
  rewrite IH. reflexivity.
Qed.

Lemma rerank_ranks (l : list (nat * LeaderboardEntry)) (r : Z) :
  map (fun x => rank (snd x)) (rerank r l) = map Some (zseq r (List.length l)).
Proof.
  revert r. induction l as [|[i e] l IH]; intros r; simpl; [reflexivity|].
  rewrite IH. reflexivity.
Qed.

Lemma rerank_length (l : list (nat * LeaderboardEntry)) (r : Z) :
  List.length (rerank r l) = List.length l.
Proof. rewrite <- (length_map fst), rerank_fst, length_map. reflexivity. Qed.

Lemma rerank_sorted (l : list (nat * LeaderboardEntry)) (r : Z) :
  StronglySorted outranks l -> StronglySorted outranks (rerank r l).
Proof.
  intros H. revert r. induction H as [|[i e] l Hl IH Hx]; intros r; simpl; constructor.
  - apply IH.
  - apply Forall_forall. intros y Hy. apply rerank_In in Hy.
    destruct Hy as (k & e' & Hk & Hy). apply nth_error_In in Hk.
    rewrite Forall_forall in Hx. specialize (Hx _ Hk).
    unfold outranks in *. rewrite Hy. simpl in *. exact Hx.
Qed.

Lemma in_map_fst_nth {A B : Type} (l : list (A * B)) (a : A) :
  In a (map fst l) -> exists k b, nth_error l k = Some (a, b).
Proof.
  intros H. apply in_map_iff in H. destruct H as ([a' b] & E & H). simpl in E. subst a'.
  apply In_nth_error in H. destruct H as [k H]. exists k, b. exact H.
Qed.

(** After the ranks of period [p] are written, its rows are those of the
    ranking with the ranks 1, 2, ... on them. *)
Lemma rank_period_entries (p : string) (tbl : list LeaderboardEntry)
    (x : nat * LeaderboardEntry) :
  In x (filter_by_period p (rank_period tbl p)) <-> In x (rerank 1 (ranking p tbl)).
Proof.
  destruct x as [i e']. rewrite filter_by_period_In, rerank_In. cbn [fst snd]. split.
  - intros [Hn Hp].
    destruct (in_dec Nat.eq_dec i (map fst (ranking p tbl))) as [Hin|Hout].
    + destruct (in_map_fst_nth _ _ Hin) as (k & e & Hk).
      exists k, e. split; [exact Hk|].
      rewrite (rank_period_at _ _ _ _ _ Hk) in Hn. congruence.
    + rewrite (rank_period_other _ _ _ Hout) in Hn. exfalso. apply Hout.
      apply in_map_iff. exists (i, e'). split; [reflexivity|].
      apply ranking_In. split; assumption.
  - intros (k & e & Hk & ->). split.
    + apply rank_period_at, Hk.
    + apply nth_error_In, ranking_In in Hk. simpl. apply Hk.
Qed.

(** Writing the ranks of another period leaves the rows of [p] alone. *)
Lemma rank_period_foreign (p p' : string) (tbl : list LeaderboardEntry)
    (x : nat * LeaderboardEntry) :
  p <> p' ->
  (In x (filter_by_period p (rank_period tbl p')) <-> In x (filter_by_period p tbl)).
Proof.
  intros Hne. destruct x as [i e]. rewrite !filter_by_period_In.
  destruct (in_dec Nat.eq_dec i (map fst (ranking p' tbl))) as [Hin|Hout].
  - destruct (in_map_fst_nth _ _ Hin) as (k & e0 & Hk).
    rewrite (rank_period_at _ _ _ _ _ Hk).
    apply nth_error_In, ranking_In in Hk. destruct Hk as [Hn Hp].
    split; intros [H1 H2]; exfalso; apply Hne.
    + injection H1 as <-. simpl in H2. congruence.
    + congruence.
  - rewrite (rank_period_other _ _ _ Hout). tauto.
Qed.

Lemma filter_by_period_NoDup (p : string) (tbl : list LeaderboardEntry) :
  NoDup (filter_by_period p tbl).
Proof.
  apply (NoDup_map_inv fst), sorted_fst_NoDup, filter_by_period_sorted.
Qed.

Lemma zseq_lower (r : Z) (n : nat) (z : Z) : In z (zseq r n) -> r <= z.
Proof.
  revert r. induction n as [|n IH]; intros r; simpl; [tauto|].
  intros [<-|H]; [lia|]. apply IH in H. lia.
Qed.

(** In a ranking that carries the ranks r, r+1, ..., two different rows have
    different ranks, and the one with the lower rank comes first. *)
Lemma ranked_order (l : list (nat * LeaderboardEntry)) (r : Z) :
  StronglySorted outranks l ->
  map (fun x => rank (snd x)) l = map Some (zseq r (List.length l)) ->
  forall x y, In x l -> In y l -> x <> y ->
    exists r1 r2, rank (snd x) = Some r1 /\ rank (snd y) = Some r2
      /\ ((outranks x y /\ r1 < r2) \/ (outranks y x /\ r2 < r1)).
Proof.
  intros Hs. revert r. induction Hs as [|a l Hl IH Ha]; intros r Hr x y Hx Hy Hne.
  - contradiction.
  - simpl in Hr. injection Hr as Hra Hrl.
    assert (Htail : forall z, In z l -> exists rz, rank (snd z) = Some rz /\ r < rz).
    { intros z Hz. apply (in_map (fun x => rank (snd x))) in Hz.
      rewrite Hrl in Hz. apply in_map_iff in Hz. destruct Hz as (rz & E & Hz).
      exists rz. split; [symmetry; exact E|]. apply zseq_lower in Hz. lia. }
    rewrite Forall_forall in Ha.
    destruct Hx as [<-|Hx]; destruct Hy as [<-|Hy].
    + congruence.
    + destruct (Htail y Hy) as (ry & Ey & Hlt).
      exists r, ry. repeat split; try assumption. left. split; [apply Ha, Hy | exact Hlt].
    + destruct (Htail x Hx) as (rx & Ex & Hlt).
      exists rx, r. repeat split; try assumption. right. split; [apply Ha, Hx | exact Hlt].
    + apply (IH (r + 1)); assumption.
Qed.

Lemma well_ranked_of_ranking (es l : list (nat * LeaderboardEntry)) :
  NoDup es -> NoDup (map fst l) ->
  StronglySorted outranks l ->
  (forall x, In x es <-> In x (rerank 1 l)) ->
  well_ranked es.
Proof.
  intros Hnd Hndl Hs Hin.
  assert (Hnd' : NoDup (rerank 1 l)).
  { apply (NoDup_map_inv fst). rewrite rerank_fst. exact Hndl. }
  assert (Hperm : Permutation es (rerank 1 l)) by (apply NoDup_Permutation; assumption).
  assert (Hlen : List.length es = List.length l).
  { rewrite (Permutation_length Hperm). apply rerank_length. }
  assert (Hord := ranked_order (rerank 1 l) 1 (rerank_sorted l 1 Hs)).
  rewrite rerank_ranks, rerank_length in Hord. specialize (Hord eq_refl).
  split; [|split].
  - rewrite Hlen, <- rerank_ranks. apply Permutation_map, Hperm.
  - intros x y r1 r2 Hx Hy E1 E2 Hlt.
    assert (Hne : x <> y) by (intros ->; rewrite E1 in E2; injection E2; lia).
    destruct (Hord x y (proj1 (Hin x) Hx) (proj1 (Hin y) Hy) Hne)
      as (q1 & q2 & F1 & F2 & [[Ho Hq] | [Ho Hq]]);
      rewrite E1 in F1; rewrite E2 in F2; injection F1 as <-; injection F2 as <-.
    + unfold outranks in Ho. lia.
    + lia.
  - intros x y Hx Hy Hlt Heq.
    assert (Hne : x <> y) by (intros ->; lia).
    destruct (Hord x y (proj1 (Hin x) Hx) (proj1 (Hin y) Hy) Hne)
      as (q1 & q2 & F1 & F2 & [[Ho Hq] | [Ho Hq]]).
    + exists q1, q2. repeat split; assumption.
    + unfold outranks in Ho. lia.
Qed.

(** With the engine of [order_by_score_desc], which returns equal scores in
    table order, the ranks of tied rows follow the table as well. *)
Lemma recalculate_ranks_well_ranked (tbl : list LeaderboardEntry) (p : string) :
  In p periods -> well_ranked (filter_by_period p (recalculate_ranks tbl)).
Proof.
  intros Hp.
  unfold recalculate_ranks, periods. simpl fold_left.
  set (t1 := rank_period tbl "all_time").
  set (t2 := rank_period t1 "weekly").
  simpl in Hp. destruct Hp as [<- | [<- | [<- | []]]].
  - apply (well_ranked_of_ranking _ (ranking "all_time" tbl));
      [apply filter_by_period_NoDup | apply ranking_NoDup | apply ranking_sorted |].
    intros x.
    rewrite (rank_period_foreign "all_time" "monthly") by discriminate.
    unfold t2. rewrite (rank_period_foreign "all_time" "weekly") by discriminate.
    apply rank_period_entries.
  - apply (well_ranked_of_ranking _ (ranking "weekly" t1));
      [apply filter_by_period_NoDup | apply ranking_NoDup | apply ranking_sorted |].
    intros x.
    rewrite (rank_period_foreign "weekly" "monthly") by discriminate.
    apply rank_period_entries.
  - apply (well_ranked_of_ranking _ (ranking "monthly" t2));
      [apply filter_by_period_NoDup | apply ranking_NoDup | apply ranking_sorted |].
    intros x. apply rank_period_entries.
Qed.

(** Ranking writes ranks only: users, scores and periods stay. *)
Lemma set_rank_keeps (i : nat) (r : Z) (tbl : list LeaderboardEntry) :
  map (fun e => (user_id e, score e, period e)) (set_rank i r tbl)
  = map (fun e => (user_id e, score e, period e)) tbl.
Proof.
  revert i. induction tbl as [|e t IH]; intros [|i]; simpl; try reflexivity.
  rewrite IH. reflexivity.
Qed.

Lemma assign_ranks_keeps (l : list nat) (r : Z) (tbl : list LeaderboardEntry) :
  map (fun e => (user_id e, score e, period e)) (assign_ranks r l tbl)
  = map (fun e => (user_id e, score e, period e)) tbl.
Proof.
  revert r tbl. induction l as [|i l IH]; intros r tbl; simpl; [reflexivity|].
  rewrite IH. apply set_rank_keeps.
Qed.

Lemma recalculate_ranks_keeps (tbl : list LeaderboardEntry) :
  map (fun e => (user_id e, score e, period e)) (recalculate_ranks tbl)
  = map (fun e => (user_id e, score e, period e)) tbl.
Proof.
  unfold recalculate_ranks, periods, rank_period. simpl fold_left.
  rewrite !assign_ranks_keeps. reflexivity.
Qed.

(** Every score update ends with the ranks recomputed (same engine). *)
Lemma update_leaderboard_well_ranked (db : DB) (uid : Z) (u : User) (p : string) :
  find_user (users db) uid = Some u -> In p periods ->
  well_ranked (filter_by_period p (leaderboard (update_leaderboard db uid))).
Proof.
  intros Hu Hp. unfold update_leaderboard. rewrite Hu.
  apply recalculate_ranks_well_ranked, Hp.
Qed.

(** *** Any engine: the query's result and the ranks written on it *)

Lemma sorted_weaken {A : Type} (R S : A -> A -> Prop) (l : list A) :
  (forall x y, R x y -> S x y) -> StronglySorted R l -> StronglySorted S l.
Proof.
  intros H. induction 1 as [|x l Hl IH Hx]; constructor; [exact IH|].
  eapply Forall_impl; [|exact Hx]. intros y Hy. apply H, Hy.
Qed.

Lemma sorted_nth {A : Type} (R : A -> A -> Prop) (l : list A) (k1 k2 : nat) (a b : A) :
  StronglySorted R l -> (k1 < k2)%nat ->
  nth_error l k1 = Some a -> nth_error l k2 = Some b -> R a b.
Proof.
  intros Hs. revert k1 k2. induction Hs as [|x l Hl IH Hx]; intros k1 k2 Hlt H1 H2.
  - destruct k1; discriminate.
  - destruct k2 as [|k2]; [lia|]. simpl in H2. destruct k1 as [|k1]; simpl in H1.
    + injection H1 as <-. rewrite Forall_forall in Hx. apply Hx. eapply nth_error_In, H2.
    + apply (IH k1 k2); [lia | assumption | assumption].
Qed.

(** The engine of [order_by_score_desc] is one of them. *)
Lemma ranking_query_result (p : string) (tbl : list LeaderboardEntry) :
  query_result p tbl (ranking p tbl).
Proof.
  split; [apply order_perm|].
  eapply sorted_weaken; [|apply ranking_sorted].
  intros x y [H | [H _]]; unfold by_score_desc; lia.
Qed.

Lemma query_result_In (p : string) (tbl : list LeaderboardEntry)
    (l : list (nat * LeaderboardEntry)) (i : nat) (e : LeaderboardEntry) :
  query_result p tbl l ->
  (In (i, e) l <-> nth_error tbl i = Some e /\ period e = p).
Proof.
  intros [Hp _]. rewrite <- filter_by_period_In. split; intros H.
  - eapply Permutation_in; [exact Hp | exact H].
  - eapply Permutation_in; [symmetry; exact Hp | exact H].
Qed.

Lemma query_result_NoDup (p : string) (tbl : list LeaderboardEntry)
    (l : list (nat * LeaderboardEntry)) :
  query_result p tbl l -> NoDup (map fst l).
Proof.
  intros [Hp _]. eapply Permutation_NoDup.
  - apply Permutation_map. symmetry. exact Hp.
  - apply sorted_fst_NoDup, filter_by_period_sorted.
Qed.

(** A row the query returned in place [k] gets the rank [1 + k]. *)
Lemma assigned_at (p : string) (tbl : list LeaderboardEntry)
    (l : list (nat * LeaderboardEntry)) (k i : nat) (e : LeaderboardEntry) :
  query_result p tbl l -> nth_error l k = Some (i, e) ->
  nth_error (assign_ranks 1 (map fst l) tbl) i = Some (with_rank (1 + Z.of_nat k) e).
Proof.
  intros Hq Hk.
  rewrite (assign_ranks_at _ _ _ k i (query_result_NoDup _ _ _ Hq)
             (nth_error_map_fst _ _ _ _ Hk)).
  apply nth_error_In in Hk. apply (query_result_In _ _ _ _ _ Hq) in Hk.
  destruct Hk as [-> _]. reflexivity.
Qed.

Lemma assigned_entries (p : string) (tbl : list LeaderboardEntry)
    (l : list (nat * LeaderboardEntry)) (x : nat * LeaderboardEntry) :
  query_result p tbl l ->
  (In x (filter_by_period p (assign_ranks 1 (map fst l) tbl)) <-> In x (rerank 1 l)).
Proof.
  intros Hq. destruct x as [i e']. rewrite filter_by_period_In, rerank_In.
  cbn [fst snd]. split.
  - intros [Hn Hp].
    destruct (in_dec Nat.eq_dec i (map fst l)) as [Hin|Hout].
    + destruct (in_map_fst_nth _ _ Hin) as (k & e & Hk).
      exists k, e. split; [exact Hk|].
      rewrite (assigned_at _ _ _ _ _ _ Hq Hk) in Hn. congruence.
    + rewrite (assign_ranks_other _ _ _ _ Hout) in Hn. exfalso. apply Hout.
      apply in_map_iff. exists (i, e'). split; [reflexivity|].
      apply (query_result_In _ _ _ _ _ Hq). split; assumption.
  - intros (k & e & Hk & ->). split.
    + apply (assigned_at _ _ _ _ _ _ Hq Hk).
    + apply nth_error_In in Hk. apply (query_result_In _ _ _ _ _ Hq) in Hk.
      simpl. apply Hk.
Qed.

Lemma assigned_foreign (p p' : string) (tbl : list LeaderboardEntry)
    (l : list (nat * LeaderboardEntry)) (x : nat * LeaderboardEntry) :
  query_result p' tbl l -> p <> p' ->
  (In x (filter_by_period p (assign_ranks 1 (map fst l) tbl))
   <-> In x (filter_by_period p tbl)).
Proof.
  intros Hq Hne. destruct x as [i e]. rewrite !filter_by_period_In.
  destruct (in_dec Nat.eq_dec i (map fst l)) as [Hin|Hout].
  - destruct (in_map_fst_nth _ _ Hin) as (k & e0 & Hk).
    rewrite (assigned_at _ _ _ _ _ _ Hq Hk).
    apply nth_error_In in Hk. apply (query_result_In _ _ _ _ _ Hq) in Hk.
    destruct Hk as [Hn Hp].
    split; intros [H1 H2]; exfalso; apply Hne.
    + injection H1 as <-. simpl in H2. congruence.
    + congruence.
  - rewrite (assign_ranks_other _ _ _ _ Hout). tauto.
Qed.

Lemma recalculated_foreign (ps : list string) (tbl tbl' : list LeaderboardEntry)
    (p : string) (x : nat * LeaderboardEntry) :
  recalculated ps tbl tbl' -> ~ In p ps ->
  (In x (filter_by_period p tbl') <-> In x (filter_by_period p tbl)).
Proof.
  induction 1 as [tbl | p0 ps tbl l tbl' Hq Hr IH]; intros Hp; [tauto|].
  rewrite IH by (intros H; apply Hp; right; exact H).
  apply (assigned_foreign _ _ _ _ _ Hq). intros ->. apply Hp. left. reflexivity.
Qed.

(** After the loop the rows of a period are those its query returned, with
    the ranks 1, 2, ... on them in the order of the result. *)
Lemma recalculated_entries (ps : list string) (tbl tbl' : list LeaderboardEntry)
    (p : string) :
  recalculated ps tbl tbl' -> NoDup ps -> In p ps ->
  exists l, StronglySorted by_score_desc l /\ NoDup (map fst l)
            /\ forall x, In x (filter_by_period p tbl') <-> In x (rerank 1 l).
Proof.
  induction 1 as [tbl | p0 ps tbl l tbl' Hq Hr IH]; intros Hnd Hp; [contradiction|].
  inversion Hnd as [|? ? Hp0 Hnd']; subst.
  destruct Hp as [->|Hp].
  - exists l. split; [apply Hq|]. split; [eapply query_result_NoDup, Hq|].
    intros x. rewrite (recalculated_foreign _ _ _ _ _ Hr Hp0).
    apply assigned_entries, Hq.
  - apply IH; assumption.
Qed.

Lemma recalculated_keeps (ps : list string) (tbl tbl' : list LeaderboardEntry) :
  recalculated ps tbl tbl' ->
  map (fun e => (user_id e, score e, period e)) tbl'
  = map (fun e => (user_id e, score e, period e)) tbl.
Proof.
  induction 1 as [tbl | p0 ps tbl l tbl' Hq Hr IH]; [reflexivity|].
  rewrite IH. apply assign_ranks_keeps.
Qed.

Lemma recalculate_ranks_recalculated (tbl : list LeaderboardEntry) :
  recalculated periods tbl (recalculate_ranks tbl).
Proof.
  unfold recalculate_ranks. generalize periods. intros ps. revert tbl.
  induction ps as [|p ps IH]; intros tbl; simpl.
  - constructor.
  - apply (recalculated_cons p ps tbl (ranking p tbl)); [apply ranking_query_result|].
    apply IH.
Qed.

Lemma rerank_by_score (l : list (nat * LeaderboardEntry)) (r : Z)
    (x y : nat * LeaderboardEntry) (r1 r2 : Z) :
  StronglySorted by_score_desc l ->
  In x (rerank r l) -> In y (rerank r l) ->
  rank (snd x) = Some r1 -> rank (snd y) = Some r2 -> r1 < r2 ->
  score (snd y) <= score (snd x).
Proof.
  intros Hs Hx Hy E1 E2 Hlt.
  apply -> rerank_In in Hx. apply -> rerank_In in Hy.
  destruct Hx as (k1 & e1 & Hk1 & Hx). destruct Hy as (k2 & e2 & Hk2 & Hy).
  rewrite Hx in E1 |- *. rewrite Hy in E2 |- *. simpl in E1, E2 |- *.
  injection E1 as <-. injection E2 as <-.
  assert (Hk : (k1 < k2)%nat) by lia.
  apply (sorted_nth _ _ _ _ _ _ Hs Hk Hk1 Hk2).
Qed.

Lemma periods_NoDup : NoDup periods.
Proof.
  unfold periods. repeat constructor; simpl; intuition discriminate.
Qed.

(** With any engine, the ranks of a period after the loop are 1..N, each
    once, and a lower rank never goes with a lower score. *)
Lemma recalculated_ranked (tbl tbl' : list LeaderboardEntry) (p : string) :
  recalculated periods tbl tbl' -> In p periods ->
  Permutation (map (fun x => rank (snd x)) (filter_by_period p tbl'))
    (map Some (zseq 1 (List.length (filter_by_period p tbl'))))
  /\ (forall x y r1 r2,
        In x (filter_by_period p tbl') -> In y (filter_by_period p tbl') ->
        rank (snd x) = Some r1 -> rank (snd y) = Some r2 ->
        r1 < r2 -> score (snd y) <= score (snd x)).
Proof.
  intros Hr Hp.
  destruct (recalculated_entries _ _ _ p Hr periods_NoDup Hp) as (l & Hs & Hnd & Hin).
  assert (Hnd' : NoDup (rerank 1 l)).
  { apply (NoDup_map_inv fst). rewrite rerank_fst. exact Hnd. }
  assert (Hperm : Permutation (filter_by_period p tbl') (rerank 1 l))
    by (apply NoDup_Permutation; [apply filter_by_period_NoDup | exact Hnd' | exact Hin]).
  split.
  - rewrite (Permutation_length Hperm), rerank_length, <- rerank_ranks.
    apply Permutation_map, Hperm.
  - intros x y r1 r2 Hx Hy E1 E2 Hlt.
    apply (rerank_by_score l 1 x y r1 r2 Hs); try assumption; apply Hin; assumption.
Qed.

(** A run on the sample table in which the engine returns the tied rows of
    [all_time] in the order user 3, user 1. *)
Lemma board_run : recalculated periods Samples.board Samples.board_ranked.
Proof.
  unfold periods.
  apply (recalculated_cons _ _ _
           [(2%nat, mkEntry 2 35 None "all_time"); (3%nat, mkEntry 3 20 None "all_time");
            (0%nat, mkEntry 1 20 None "all_time")]).
  { split.
    - symmetry. apply (Permutation_cons_app [_; _] []). reflexivity.
    - repeat constructor; unfold by_score_desc; simpl; lia. }
  apply (recalculated_cons _ _ _
           [(1%nat, mkEntry 1 5 None "weekly"); (4%nat, mkEntry 2 0 None "weekly")]).
  { split; [reflexivity|]. repeat constructor; unfold by_score_desc; simpl; lia. }
  apply (recalculated_cons _ _ _ []).
  { split; [reflexivity | constructor]. }
  apply recalculated_nil.
Qed.

(** C5, amended: whatever order the engine returns rows of equal score in,
    after the ranks are recomputed the ranks of the N entries of each of the
    three periods are exactly 1..N, each once, and a lower rank never goes
    with a lower score; only ranks are written: users, scores and periods of
    the rows, and the user records, stay as they were. *)
Theorem recalculated_ranks_are_a_permutation_by_score :
  forall (db db' : DB) (p : string),
    ranks_recalculated db db' ->
    In p periods ->
    let es := filter_by_period p (leaderboard db') in
    Permutation (map (fun x => rank (snd x)) es) (map Some (zseq 1 (List.length es)))
    /\ (forall x y r1 r2,
          In x es -> In y es ->
          rank (snd x) = Some r1 -> rank (snd y) = Some r2 ->
          r1 < r2 -> score (snd y) <= score (snd x))
    /\ map (fun e => (user_id e, score e, period e)) (leaderboard db')
       = map (fun e => (user_id e, score e, period e)) (leaderboard db)
    /\ users db' = users db.
Proof.
  intros db db' p (tbl' & Hr & ->) Hp es. subst es. cbn [leaderboard set_leaderboard users].
  destruct (recalculated_ranked _ _ p Hr Hp) as [H1 H2].
  split; [exact H1|]. split; [exact H2|]. split; [|reflexivity].
  apply (recalculated_keeps _ _ _ Hr).
Qed.

Lemma recalculated_ranks_are_a_permutation_by_score_witness :
  Permutation
    (map (fun x => rank (snd x)) (filter_by_period "all_time" Samples.board_ranked))
    [Some 1; Some 2; Some 3]
  /\ Permutation
       (map (fun x => rank (snd x))
          (filter_by_period "weekly"
             (leaderboard (recalculate_leaderboard_ranks (mkDB [] [] Samples.board [])))))
       [Some 1; Some 2].
Proof.
  split.
  - apply (recalculated_ranks_are_a_permutation_by_score
             (mkDB [] [] Samples.board []) (mkDB [] [] Samples.board_ranked []) "all_time").
    + exists Samples.board_ranked. split; [apply board_run | reflexivity].
    + simpl. tauto.
  - apply (recalculated_ranks_are_a_permutation_by_score
             (mkDB [] [] Samples.board [])
             (recalculate_leaderboard_ranks (mkDB [] [] Samples.board [])) "weekly").
    + exists (recalculate_ranks Samples.board).
      split; [apply recalculate_ranks_recalculated | reflexivity].
    + simpl. tauto.
Defined.

(** C5 as stated fails where it fixes the order of ties: the query orders
    by score only, so the engine may return the two rows of [all_time]
    that are tied at 20 with the later one first. The row of user 1, which
    comes first in the table, then gets rank 3 and the row of user 3 gets
    rank 2. *)
Lemma tied_entries_ranked_against_table_order :
  ranks_recalculated (mkDB [] [] Samples.board []) (mkDB [] [] Samples.board_ranked [])
  /\ filter_by_period "all_time" Samples.board_ranked
     = [(0%nat, mkEntry 1 20 (Some 3) "all_time");
        (2%nat, mkEntry 2 35 (Some 1) "all_time");
        (3%nat, mkEntry 3 20 (Some 2) "all_time")].
Proof.
  split; [|reflexivity].
  exists Samples.board_ranked. split; [apply board_run | reflexivity].
Qed.

End LeaderboardFacts.

(** * Further properties of the code *)

(** ** Navigation stack: pushing, popping and going back *)

Module NavMore.
Import Nav NavFacts.

Lemma frame_eqb_true (a b : NavFrame) : frame_eqb a b = true -> a = b.
Proof.
  unfold frame_eqb. intros H. apply String.eqb_eq in H.
  destruct a, b; simpl in H; congruence.
Qed.

Lemma stack_cases (s : list NavFrame) : s = [] \/ exists s' t, s = s' ++ [t].
Proof.
  destruct s as [|x r]; [left; reflexivity|]. right.
  destruct (exists_last (l := x :: r)) as (s' & t & E); [discriminate|].
  exists s', t. exact E.
Qed.

Lemma push_nav_empty (ud : user_data) (v : NavFrame) :
  get_stack ud = [] ->
  push_nav ud v = Some (if frame_eqb root v then [root] else [root; v]).
Proof.
  intros H. unfold push_nav. rewrite H. simpl.
  destruct (frame_eqb root v); reflexivity.
Qed.

Lemma top_push_nav (ud : user_data) (v : NavFrame) :
  top (get_stack (push_nav ud v)) = Some v.
Proof.
  destruct (stack_cases (get_stack ud)) as [E | (s & t & E)].
  - rewrite (push_nav_empty _ _ E). simpl.
    destruct (frame_eqb root v) eqn:Ev; [|reflexivity].
    apply frame_eqb_true in Ev. rewrite Ev. reflexivity.
  - destruct ud as [stk|]; [|destruct s; discriminate]. simpl in E. subst stk.
    rewrite push_nav_snoc. simpl.
    destruct (frame_eqb t v) eqn:Ev.
    + apply frame_eqb_true in Ev. subst. apply top_snoc.
    + apply top_snoc.
Qed.

(** After [push_nav] the view pushed is on top, whatever the stack was:
    [peek_nav] returns it. *)
Theorem peek_after_push :
  forall (ud : user_data) (v : NavFrame), peek_nav (push_nav ud v) = Some v.
Proof. intros ud v. apply top_push_nav. Qed.

(** [push_nav] keeps the main menu at the bottom: on an absent or empty
    stack it first puts the root frame, and under a stack that starts with
    the root the root stays. *)
Theorem push_keeps_root :
  forall v : NavFrame,
    (exists s, push_nav None v = Some (root :: s))
    /\ (exists s, push_nav (Some []) v = Some (root :: s))
    /\ (forall r, exists s, push_nav (Some (root :: r)) v = Some (root :: s)).
Proof.
  intros v. split; [|split].
  - rewrite push_nav_empty by reflexivity. destruct (frame_eqb root v); eexists; reflexivity.
  - rewrite push_nav_empty by reflexivity. destruct (frame_eqb root v); eexists; reflexivity.
  - intros r. destruct (stack_cases r) as [-> | (s & t & ->)].
    + change [root] with ([] ++ [root]). rewrite push_nav_snoc.
      destruct (frame_eqb root v); eexists; reflexivity.
    + change (root :: s ++ [t]) with ((root :: s) ++ [t]). rewrite push_nav_snoc.
      destruct (frame_eqb t v); eexists; reflexivity.
Qed.

Lemma pop_nav_snoc (s : list NavFrame) (f : NavFrame) :
  pop_nav (Some (s ++ [f])) = (Some f, Some s).
Proof.
  unfold pop_nav, set_stack. simpl get_stack.
  destruct (s ++ [f]) eqn:E; [exfalso; eapply snoc_not_nil; eauto|].
  rewrite <- E, top_snoc, removelast_snoc. reflexivity.
Qed.

(** [pop_nav] after [push_nav] returns the view pushed. It restores the
    stack when the push added a frame; when the push was suppressed because
    the view was already on top, the pop removes that frame. *)
Theorem pop_after_push :
  forall (s : list NavFrame) (t v : NavFrame),
    pop_nav (push_nav (Some (s ++ [t])) v)
    = (Some v, Some (if frame_eqb t v then s else s ++ [t])).
Proof.
  intros s t v. rewrite push_nav_snoc.
  destruct (frame_eqb t v) eqn:Ev.
  - apply frame_eqb_true in Ev. subst. apply pop_nav_snoc.
  - apply pop_nav_snoc.
Qed.

(** The stack [back_handler] leaves: the root alone, or the root and the
    frame of a view that pushes itself. *)
Lemma back_handler_shape (ud : user_data) :
  snd (back_handler ud) = Some [root]
  \/ exists v, snd (back_handler ud) = Some [root; mkFrame v].
Proof.
  unfold back_handler. simpl snd.
  change (back_reset ud) with (Some [root]).
  generalize (back_view ud). intros v. unfold render_after_back.
  repeat match goal with
  | |- context [if ?c then _ else _] => destruct c; [try (left; reflexivity)|]
  end; try (left; reflexivity).
  all: rewrite push_on_root; simpl; right; eexists; reflexivity.
Qed.

(** Two back actions in a row always end on the main menu with the stack
    reduced to the root frame, however deep the stack was: the history
    below the top two frames is never walked. *)
Theorem back_twice_is_main_menu :
  forall ud : user_data,
    back_handler (snd (back_handler ud)) = ("main_menu", Some [root]).
Proof.
  intros ud. destruct (back_handler_shape ud) as [E | (v & E)]; rewrite E; reflexivity.
Qed.

End NavMore.

(** ** Languages *)

Module LangFacts.
Import Lang.

Lemma get_set_lang (m : langs) (u v : Z) (lang : string) :
  get_lang (set_lang m u lang) v
  = if (v =? u) && negb (String.eqb lang "") then lang else get_lang m v.
Proof.
  unfold set_lang, get_lang.
  destruct (String.eqb lang ""); simpl; [rewrite andb_false_r; reflexivity|].
  rewrite andb_true_r. destruct (v =? u); reflexivity.
Qed.

(** A language that was set is the one read back, other users keep theirs,
    an empty language is ignored, and a user who never set one reads the
    default ["ru"]. *)
Theorem get_lang_after_set_lang :
  forall (m : langs) (u v : Z) (lang : string),
    get_lang (set_lang m u lang) v
    = (if (v =? u) && negb (String.eqb lang "") then lang else get_lang m v)
    /\ get_lang [] v = "ru".
Proof. intros m u v lang. split; [apply get_set_lang | reflexivity]. Qed.

Lemma supported_default : supported (get_lang [] 0) = true.
Proof. reflexivity. Qed.

(** [set_language_callback] only ever stores one of the three languages the
    text tables have: if every user's language is among them before, it is
    after, whatever the callback data; so is the default of a new user. *)
Theorem language_stays_supported :
  forall (m : langs) (u : Z) (data : string),
    (forall v, supported (get_lang m v) = true) ->
    forall v, supported (get_lang (fst (set_language_callback m u data)) v) = true.
Proof.
  intros m u data H v. unfold set_language_callback. simpl fst.
  destruct (String.eqb data "set_lang_ru");
    [|destruct (String.eqb data "set_lang_kk");
      [|destruct (String.eqb data "set_lang_en")]];
    rewrite ?get_set_lang; simpl;
    try (destruct (v =? u); [reflexivity | apply H]); apply H.
Qed.

Lemma language_stays_supported_witness :
  supported (get_lang (fst (set_language_callback [] 7 "set_lang_kk")) 7) = true
  /\ get_lang (fst (set_language_callback [] 7 "set_lang_kk")) 7 = "kk".
Proof.
  split; [|reflexivity].
  apply (language_stays_supported [] 7 "set_lang_kk"). intros v. reflexivity.
Defined.

Lemma has_key_In {V : Type} (k : string) (d : list (string * V)) :
  has_key k d = true -> In k (map fst d).
Proof.
  unfold has_key. induction d as [|[k' v] d IH]; simpl; [discriminate|].
  destruct (String.eqb_spec k k') as [->|_]; [left; reflexivity|].
  intros H. right. apply IH, H.
Qed.

(** The scenario language is a key of the catalog or the default ["ru"];
    resolving it again changes nothing; and ["kk"] is served by ["kz"] when
    the catalog has it. *)
Theorem scenario_language_resolved :
  forall (V : Type) (SCENARIOS : list (string * V)) (lang : string),
    let r := resolve_scenario_language SCENARIOS lang in
    (In r (map fst SCENARIOS) \/ r = "ru")
    /\ resolve_scenario_language SCENARIOS r = r
    /\ (has_key "kz" SCENARIOS = true -> resolve_scenario_language SCENARIOS "kk" = "kz").
Proof.
  intros V S lang r. subst r. unfold resolve_scenario_language. split; [|split].
  - destruct (has_key _ S) eqn:E; [left; apply has_key_In, E | right; reflexivity].
  - destruct (String.eqb_spec lang "kk") as [->|Hne].
    + destruct (has_key "kz" S) eqn:E; simpl.
      * rewrite E. reflexivity.
      * destruct (has_key "ru" S); reflexivity.
    + destruct (has_key lang S) eqn:E.
      * apply String.eqb_neq in Hne. rewrite Hne, E. reflexivity.
      * simpl. destruct (has_key "ru" S); reflexivity.
  - intros H. simpl. rewrite H. reflexivity.
Qed.

Lemma scenario_language_resolved_witness :
  resolve_scenario_language [("ru", 1%nat); ("kz", 2%nat)] "kk" = "kz".
Proof.
  apply (scenario_language_resolved nat [("ru", 1%nat); ("kz", 2%nat)] "kk"). reflexivity.
Defined.

End LangFacts.

(** ** Badge strings and scenario rewards *)

Module BadgeMore.
Import PyStr Badges PyStrFacts BadgeFacts Store Ledger StoreFacts.

(** Every badge [parse_badges] returns is non-empty, has no comma and no
    blank at either end. *)
Theorem parsed_badges_are_clean :
  forall (s e : pystr),
    In e (parse_badges s) -> e <> [] /\ ~ In comma e /\ strip e = e.
Proof.
  intros s e H. pose proof (parsed_nonempty _ _ H) as Hne.
  rewrite parse_badges_pieces in H. unfold pieces in H.
  apply filter_In in H. destruct H as [H _].
  apply in_map_iff in H. destruct H as (p & <- & Hp).
  split; [|split].
  - intros E. rewrite E in Hne. discriminate.
  - intros Hc. apply (split_no_comma s p Hp). apply strip_In, Hc.
  - apply strip_idem.
Qed.

Lemma parsed_badges_are_clean_witness :
  let e := of_string "b c" in
  e <> [] /\ ~ In comma e /\ strip e = e.
Proof.
  apply (parsed_badges_are_clean (of_string " a ,, b c ,")).
  vm_compute. right. left. reflexivity.
Defined.

Lemma well_formed_pieces (b : pystr) : well_formed b -> pieces b = [b] /\ nonempty b = true.
Proof.
  unfold well_formed. intros H. rewrite <- parse_badges_pieces. split; [exact H|].
  apply (parsed_nonempty b). rewrite H. left. reflexivity.
Qed.

Lemma add_badge_In (s b x : pystr) :
  well_formed b ->
  (In x (parse_badges (add_badge s b)) <-> x = b \/ In x (parse_badges s)).
Proof.
  intros Hb. destruct (well_formed_pieces b Hb) as [Hp Hne].
  rewrite parse_add_badge, Hp, Hne. simpl. intuition congruence.
Qed.

(** After [add_badge] with a well-formed badge the string holds that badge
    and the badges it held before, nothing else. *)
Theorem add_badge_members :
  forall (s b x : pystr),
    well_formed b ->
    (In x (parse_badges (add_badge s b)) <-> x = b \/ In x (parse_badges s)).
Proof. intros s b x. apply add_badge_In. Qed.

Lemma add_badge_members_witness :
  In (of_string "a") (parse_badges (add_badge (of_string "b") (of_string "a")))
  <-> of_string "a" = of_string "a" \/ In (of_string "a") (parse_badges (of_string "b")).
Proof. apply add_badge_members. reflexivity. Defined.

Lemma flat_map_atoms (l : list pystr) :
  (forall e, In e l -> pieces e = [e]) -> flat_map pieces l = l.
Proof.
  induction l as [|x l IH]; intros H; simpl; [reflexivity|].
  rewrite (H x (or_introl eq_refl)), IH by (intros e He; apply H; right; exact He).
  reflexivity.
Qed.

Lemma parse_add_badge_list (s b : pystr) :
  well_formed b -> parse_badges (add_badge s b) = set_add b (set_of_list (parse_badges s)).
Proof.
  intros Hb. destruct (well_formed_pieces b Hb) as [Hp Hne].
  rewrite add_badge_joined, parse_badges_pieces, pieces_join. unfold joined. rewrite Hne.
  apply flat_map_atoms. intros e He. apply -> set_add_In in He. destruct He as [->|He].
  - exact Hp.
  - apply -> set_of_list_In in He. eapply parsed_is_atom, He.
Qed.

(** For a well-formed badge (not empty, no comma, no blank at either end),
    the string [add_badge] writes lists each badge once, in ascending order
    of code points, whatever the order and the duplicates of the string it
    read. *)
Theorem add_badge_sorted_without_duplicates :
  forall (s b : pystr),
    well_formed b ->
    StronglySorted lt (parse_badges (add_badge s b))
    /\ NoDup (parse_badges (add_badge s b)).
Proof.
  intros s b Hb. rewrite (parse_add_badge_list s b Hb).
  assert (Ha : ascending (set_add b (set_of_list (parse_badges s))))
    by apply set_add_ascending, set_of_list_ascending.
  split; [exact Ha|].
  unfold ascending in Ha. induction Ha as [|x l Hl IH Hx]; constructor; [|exact IH].
  intros Hin. rewrite Forall_forall in Hx. apply (lt_irrefl x), Hx, Hin.
Qed.

Lemma add_badge_sorted_without_duplicates_witness :
  StronglySorted lt (parse_badges (add_badge (of_string "z, b,z") (of_string "m")))
  /\ NoDup (parse_badges (add_badge (of_string "z, b,z") (of_string "m"))).
Proof. apply add_badge_sorted_without_duplicates. reflexivity. Defined.

Lemma set_add_comm (a b : pystr) (s : pyset) :
  ascending s -> set_add a (set_add b s) = set_add b (set_add a s).
Proof.
  intros Hs. apply ascending_ext; try (apply set_add_ascending, set_add_ascending, Hs).
  intros x. rewrite !set_add_In. tauto.
Qed.

(** Badges can be granted in any order: two well-formed badges added one
    after the other give the same stored string either way. *)
Theorem add_badge_commutes :
  forall (s a b : pystr),
    well_formed a -> well_formed b ->
    add_badge (add_badge s a) b = add_badge (add_badge s b) a.
Proof.
  intros s a b Ha Hb.
  destruct (well_formed_pieces a Ha) as [_ Hna].
  destruct (well_formed_pieces b Hb) as [_ Hnb].
  rewrite (add_badge_joined (add_badge s a) b), (add_badge_joined (add_badge s b) a).
  unfold joined. rewrite Hna, Hnb.
  rewrite (parse_add_badge_list s a Ha), (parse_add_badge_list s b Hb).
  rewrite (set_of_list_id (set_add a (set_of_list (parse_badges s))))
    by apply set_add_ascending, set_of_list_ascending.
  rewrite (set_of_list_id (set_add b (set_of_list (parse_badges s))))
    by apply set_add_ascending, set_of_list_ascending.
  rewrite set_add_comm by apply set_of_list_ascending. reflexivity.
Qed.

Lemma add_badge_commutes_witness :
  add_badge (add_badge [] (of_string "hero")) (of_string "ace")
  = add_badge (add_badge [] (of_string "ace")) (of_string "hero").
Proof. apply add_badge_commutes; reflexivity. Defined.

Lemma grant_amounts (db : DB) (uid reward : Z) (badge : option pystr) :
    let r := grant_scenario_rewards db uid reward badge in
    exists u u',
      find_user (users (ensure_user_record db uid)) uid = Some u
      /\ find_user (users (fst r)) uid = Some u'
      /\ or_default (coins u') 0 = or_default (coins u) 0 + Z.max 0 reward
      /\ or_default (scenario_score u') 0 = or_default (scenario_score u) 0 + Z.max 0 reward
      /\ quizzes_passed u' = quizzes_passed u
      /\ max_unlocked_level u' = max_unlocked_level u
      /\ g_coins (snd r) = reward
      /\ g_score (snd r) = or_default (scenario_score u') 0.
Proof.
  intros r. subst r. unfold grant_scenario_rewards.
  pose proof (find_user_ensure db uid) as Hf.
  set (db0 := ensure_user_record db uid) in *.
  rewrite Hf. set (u := match find_user (users db) uid with
                        | Some u => u | None => new_user uid end) in *.
  exists u. eexists. split; [reflexivity|]. simpl fst. simpl snd. split.
  - unfold track_user_event. cbn [users]. rewrite users_update_leaderboard. cbn [users set_users].
    rewrite find_user_update by (intros; simpl; exact (find_user_id _ _ _ Hf)).
    rewrite Z.eqb_refl, Hf. reflexivity.
  - simpl. destruct (Z.ltb_spec 0 reward) as [Hpos|Hle].
    + rewrite Z.max_r by lia. rewrite !or_default_some. repeat split.
    + rewrite Z.max_l by lia. rewrite !Z.add_0_r. repeat split.
Qed.

(** What a grant does to the user's record, which exists afterwards even if
    it did not before: coins and scenario score rise by the reward when it
    is positive and stay as they were otherwise (they never fall), the quiz
    columns are not touched, and the result reports the reward as passed. *)
Theorem grant_scenario_rewards_amounts :
  forall (db : DB) (uid reward : Z) (badge : option pystr),
    let r := grant_scenario_rewards db uid reward badge in
    exists u u',
      find_user (users (ensure_user_record db uid)) uid = Some u
      /\ find_user (users (fst r)) uid = Some u'
      /\ or_default (coins u') 0 = or_default (coins u) 0 + Z.max 0 reward
      /\ or_default (scenario_score u') 0 = or_default (scenario_score u) 0 + Z.max 0 reward
      /\ quizzes_passed u' = quizzes_passed u
      /\ max_unlocked_level u' = max_unlocked_level u
      /\ g_coins (snd r) = reward
      /\ g_score (snd r) = or_default (scenario_score u') 0.
Proof. intros db uid reward badge. apply grant_amounts. Qed.

(** Granting a well-formed badge the user does not hold yet (the stored
    string being in the written form) reports that badge, stores it, and
    keeps every badge held before. *)
Theorem grant_new_badge_is_reported :
  forall (db : DB) (uid reward : Z) (b : pystr) (u : User),
    find_user (users db) uid = Some u ->
    well_formed b ->
    ~ In b (parse_badges (badges_or_empty (scenario_badges u))) ->
    let r := grant_scenario_rewards db uid reward (Some b) in
    g_badge (snd r) = Some b
    /\ (forall x, In x (g_badges (snd r))
                  <-> x = b \/ In x (parse_badges (badges_or_empty (scenario_badges u))))
    /\ exists u', find_user (users (fst r)) uid = Some u'
                  /\ scenario_badges u'
                     = Some (add_badge (badges_or_empty (scenario_badges u)) b).
Proof.
  intros db uid reward b u Hu Hb Hnew r. subst r. unfold grant_scenario_rewards.
  assert (He : ensure_user_record db uid = db)
    by (unfold ensure_user_record; rewrite Hu; reflexivity).
  rewrite He, Hu. unfold badge_given.
  destruct (well_formed_pieces b Hb) as [_ Hne]. rewrite Hne.
  set (s := badges_or_empty (scenario_badges u)) in *.
  assert (Hdiff : PyStr.eqb (add_badge s b) s = false).
  { destruct (PyStr.eqb (add_badge s b) s) eqn:E; [|reflexivity].
    apply eqb_eq in E. exfalso. apply Hnew. rewrite <- E.
    apply add_badge_In; [exact Hb | left; reflexivity]. }
  rewrite Hdiff. simpl. split; [reflexivity|]. split.
  - intros x. apply add_badge_In, Hb.
  - rewrite users_update_leaderboard. simpl.
    rewrite find_user_update by (intros; simpl; exact (find_user_id _ _ _ Hu)).
    rewrite Z.eqb_refl, Hu. simpl. eexists. split; reflexivity.
Qed.

Lemma grant_new_badge_is_reported_witness :
  let r := grant_scenario_rewards Samples.badge_db 1 30 (Some (of_string "phishing_hero")) in
  g_badge (snd r) = Some (of_string "phishing_hero")
  /\ exists u', find_user (users (fst r)) 1 = Some u'
                /\ scenario_badges u' = Some (of_string "phishing_hero").
Proof.
  destruct (grant_new_badge_is_reported Samples.badge_db 1 30 (of_string "phishing_hero")
              Samples.alice eq_refl eq_refl) as (H1 & _ & H3).
  - simpl. tauto.
  - split; [exact H1 | exact H3].
Defined.

End BadgeMore.

(** ** The shop *)

Module ShopFacts.
Import Store Shop StoreFacts.

Lemma ensure_user_record_present (db : DB) (uid : Z) (u : User) :
  find_user (users db) uid = Some u -> ensure_user_record db uid = db.
Proof. intros H. unfold ensure_user_record. rewrite H. reflexivity. Qed.

Lemma balance_ensure (db : DB) (uid : Z) : balance (ensure_user_record db uid) uid = balance db uid.
Proof.
  unfold balance. rewrite find_user_ensure.
  destruct (find_user (users db) uid); reflexivity.
Qed.

(** Buying a hint takes exactly 20 coins when the balance covers them and
    nothing otherwise; any other item takes nothing. A balance that is not
    negative stays so, and the shop is the view on top afterwards. *)
Theorem shop_buy_charges_the_hint_cost :
  forall (db : DB) (nav : Nav.user_data) (uid : Z) (action : string),
    let r := shop_buy_callback db nav uid action in
    let paid := String.eqb action "buy_hint" && (20 <=? balance db uid) in
    balance (fst (fst r)) uid = (if paid then balance db uid - 20 else balance db uid)
    /\ snd r = (if String.eqb action "buy_hint"
                then if 20 <=? balance db uid then Bought else NotEnough
                else ItemUnavailable)
    /\ (0 <= balance db uid -> 0 <= balance (fst (fst r)) uid)
    /\ Nav.peek_nav (snd (fst r)) = Some (Nav.mkFrame "shop").
Proof.
  intros db nav uid action r paid.
  assert (Hmain : balance (fst (fst r)) uid
                  = (if paid then balance db uid - 20 else balance db uid)
                  /\ snd r = (if String.eqb action "buy_hint"
                              then if 20 <=? balance db uid then Bought else NotEnough
                              else ItemUnavailable)
                  /\ Nav.peek_nav (snd (fst r)) = Some (Nav.mkFrame "shop")).
  { subst r paid. unfold shop_buy_callback.
    pose proof (find_user_ensure db uid) as Hf.
    pose proof (balance_ensure db uid) as Hb.
    set (db0 := ensure_user_record db uid) in *.
    rewrite Hf. set (u := match find_user (users db) uid with
                          | Some u => u | None => new_user uid end) in *.
    assert (Hbu : or_default (coins u) 0 = balance db uid).
    { rewrite <- Hb. unfold balance. rewrite Hf. reflexivity. }
    rewrite Hbu. unfold hint_cost, show_shop.
    destruct (String.eqb action "buy_hint"); simpl andb.
    - destruct (Z.ltb_spec (balance db uid) 20) as [Hlt|Hge].
      + destruct (Z.leb_spec 20 (balance db uid)) as [|_]; [lia|].
        simpl. rewrite (ensure_user_record_present db0 uid u Hf), Hb.
        repeat split. apply NavMore.top_push_nav.
      + destruct (Z.leb_spec 20 (balance db uid)) as [_|]; [|lia].
        simpl. split; [|split; [reflexivity | apply NavMore.top_push_nav]].
        rewrite balance_ensure. unfold balance at 1. cbn [users set_users].
        rewrite find_user_update by (intros; simpl; assumption).
        rewrite Z.eqb_refl, Hf. simpl.
        unfold or_default. destruct (Z.eqb_spec (balance db uid - 20) 0); lia.
    - simpl. rewrite (ensure_user_record_present db0 uid u Hf), Hb.
      repeat split. apply NavMore.top_push_nav. }
  destruct Hmain as (H1 & H2 & H3). repeat split; try assumption.
  intros Hpos. rewrite H1. subst paid.
  destruct (String.eqb action "buy_hint"); simpl; [|lia].
  destruct (Z.leb_spec 20 (balance db uid)); lia.
Qed.

Lemma shop_buy_charges_the_hint_cost_witness :
  let r := shop_buy_callback Samples.badge_db (Some [Nav.root]) 3 "buy_hint" in
  balance (fst (fst r)) 3 = 20 /\ 0 <= balance (fst (fst r)) 3.
Proof.
  destruct (shop_buy_charges_the_hint_cost Samples.badge_db (Some [Nav.root]) 3 "buy_hint")
    as (H1 & _ & H3 & _).
  split; [exact H1|]. apply H3. vm_compute. discriminate.
Defined.

End ShopFacts.

(** ** Referral codes *)

Module ReferralCodeFacts.
Import Store Referral ReferralCodes StoreFacts ReferralFacts.

Lemma find_by_referrer_app_new (rs : list Referral) (uid : Z) (r : Referral) :
  find_by_referrer rs uid = None -> referrer_id r = uid ->
  find_by_referrer (rs ++ [r]) uid = Some r.
Proof.
  unfold find_by_referrer. intros H E. induction rs as [|x t IH]; simpl in *.
  - rewrite E, Z.eqb_refl. reflexivity.
  - destruct (referrer_id x =? uid); [discriminate | apply IH, H].
Qed.

(** Once a user has a referral row, asking for the code again returns the
    same code and changes nothing, whatever code would be generated; and
    the first request creates the row unless the generated code is taken. *)
Theorem referral_code_is_stable :
  forall (db : DB) (uid : Z) (generated retry generated' retry' : string),
    let r := get_or_create_referral_code db uid generated retry in
    (find_by_referrer (referrals db) uid <> None
     \/ code_taken (referrals db) generated = false) ->
    get_or_create_referral_code (fst r) uid generated' retry' = r
    /\ users (fst r) = users db.
Proof.
  intros db uid g rt g' rt' r H. subst r. unfold get_or_create_referral_code.
  destruct (find_by_referrer (referrals db) uid) as [x|] eqn:E.
  - simpl. rewrite E. split; reflexivity.
  - destruct H as [H|H]; [congruence|]. rewrite H. simpl.
    rewrite (find_by_referrer_app_new _ uid (mkReferral uid None g "pending") E eq_refl).
    split; reflexivity.
Qed.

Lemma referral_code_is_stable_witness :
  let r := get_or_create_referral_code Samples.quiz_db 1 "AB12CD34" "FFFF0000" in
  get_or_create_referral_code (fst r) 1 "99999999" "EEEE1111" = r
  /\ snd r = "AB12CD34".
Proof.
  split; [|reflexivity].
  apply (referral_code_is_stable Samples.quiz_db 1 "AB12CD34" "FFFF0000" "99999999" "EEEE1111").
  right. reflexivity.
Defined.

Lemma rows_of_app (rs : list Referral) (r : Referral) (uid : Z) :
  rows_of (rs ++ [r]) uid
  = (rows_of rs uid + (if Z.eqb (referrer_id r) uid then 1 else 0))%nat.
Proof.
  unfold rows_of. rewrite filter_app, length_app. simpl.
  destruct (referrer_id r =? uid); reflexivity.
Qed.

Lemma rows_of_none (rs : list Referral) (uid : Z) :
  find_by_referrer rs uid = None -> rows_of rs uid = 0%nat.
Proof.
  unfold find_by_referrer, rows_of. induction rs as [|x t IH]; simpl; [reflexivity|].
  destruct (referrer_id x =? uid); [discriminate | exact IH].
Qed.

Lemma rows_of_update (code : string) (f : Referral -> Referral) (rs : list Referral) (uid : Z) :
  (forall r, referrer_id (f r) = referrer_id r) ->
  rows_of (update_referral code f rs) uid = rows_of rs uid.
Proof.
  intros Hf. unfold rows_of. induction rs as [|x t IH]; simpl; [reflexivity|].
  destruct (String.eqb (referral_code x) code); simpl.
  - rewrite Hf. destruct (referrer_id x =? uid); reflexivity.
  - destruct (referrer_id x =? uid); simpl; rewrite IH; reflexivity.
Qed.

Lemma referrals_process_referral (db : DB) (code : string) (new_id : Z) (uid : Z) :
  rows_of (referrals (fst (process_referral db code new_id))) uid = rows_of (referrals db) uid.
Proof.
  unfold process_referral.
  destruct (find_referral (referrals db) code) as [r|]; [|reflexivity].
  destruct (referrer_id r =? new_id); [reflexivity|].
  destruct (String.eqb (status r) "pending"); simpl; [|reflexivity].
  destruct (milestone _); simpl; apply rows_of_update; reflexivity.
Qed.

(** A referrer never has more than one referral row. *)
Lemma one_row_per_referrer (db : DB) :
  reachable db -> forall uid, (rows_of (referrals db) uid <= 1)%nat.
Proof.
  induction 1 as [db H | db u g rt Hr IH | db code new_id Hr IH | db db' Hr IH E]; intros uid.
  - rewrite H. unfold rows_of. simpl. lia.
  - unfold get_or_create_referral_code.
    destruct (find_by_referrer (referrals db) u) eqn:E; [apply IH|].
    destruct (code_taken (referrals db) g); [apply IH|]. simpl.
    rewrite rows_of_app. simpl. specialize (IH uid).
    destruct (Z.eqb_spec u uid) as [->|_]; [|lia].
    rewrite (rows_of_none _ _ E). lia.
  - rewrite referrals_process_referral. apply IH.
  - rewrite E. apply IH.
Qed.

Lemma completed_le_rows (rs : list Referral) (uid : Z) :
  completed_count rs uid <= Z.of_nat (rows_of rs uid).
Proof.
  unfold completed_count, rows_of. apply Nat2Z.inj_le.
  induction rs as [|x t IH]; simpl; [lia|].
  destruct (referrer_id x =? uid); simpl; [|exact IH].
  destruct (String.eqb (status x) "completed"); simpl; lia.
Qed.

(** The milestone bonus is out of reach: since a user's code is created
    once and reused ever after, a referrer has one referral row, so a
    successful [process_referral] always finds exactly one completed
    referral, which is no multiple of 3, and the referrer's record is left
    as it was; only the new user is credited. *)
Theorem milestone_bonus_is_never_paid :
  forall (db db' : DB) (code : string) (new_id rid : Z),
    reachable db ->
    process_referral db code new_id = (db', Success rid) ->
    completed_count (referrals db') rid = 1
    /\ milestone (completed_count (referrals db') rid) = false
    /\ users db' = update_user new_id (add_coins 20) (users db)
    /\ find_user (users db') rid = find_user (users db) rid.
Proof.
  intros db db' code new_id rid Hr H.
  assert (Hr' : reachable db').
  { replace db' with (fst (process_referral db code new_id)) by (rewrite H; reflexivity).
    apply reach_referral, Hr. }
  destruct (process_referral_success _ _ _ _ _ H)
    as (r & Hf & -> & Hne & Hp & Hrefs & Husers).
  assert (Hn : completed_count (referrals db') (referrer_id r) = 1).
  { pose proof (completed_le_rows (referrals db') (referrer_id r)) as Hle.
    pose proof (one_row_per_referrer db' Hr' (referrer_id r)) as Hone.
    assert (Hinc : completed_count (referrals db') (referrer_id r)
                   = completed_count (referrals db) (referrer_id r) + 1)
      by (rewrite Hrefs; apply completed_count_update; assumption).
    assert (0 <= completed_count (referrals db) (referrer_id r))
      by (unfold completed_count; lia).
    lia. }
  rewrite Hn in Husers. rewrite Hn. simpl in Husers.
  repeat split; try assumption.
  rewrite Husers, find_user_update by (intros u E; exact E).
  destruct (Z.eqb_spec (referrer_id r) new_id); [contradiction | reflexivity].
Qed.

Lemma milestone_bonus_is_never_paid_witness :
  let db := fst (get_or_create_referral_code (mkDB [Samples.alice; Samples.bob] [] [] [])
                   1 "AB12CD34" "FFFF0000") in
  let db' := fst (process_referral db "AB12CD34" 9) in
  completed_count (referrals db') 1 = 1
  /\ find_user (users db') 1 = Some Samples.alice.
Proof.
  destruct (milestone_bonus_is_never_paid
              (fst (get_or_create_referral_code (mkDB [Samples.alice; Samples.bob] [] [] [])
                      1 "AB12CD34" "FFFF0000"))
              (fst (process_referral
                      (fst (get_or_create_referral_code
                              (mkDB [Samples.alice; Samples.bob] [] [] [])
                              1 "AB12CD34" "FFFF0000")) "AB12CD34" 9))
              "AB12CD34" 9 1) as (H1 & _ & _ & H4).
  - apply reach_code, reach_start. reflexivity.
  - reflexivity.
  - split; [exact H1 | exact H4].
Defined.

End ReferralCodeFacts.

(** ** The quiz in progress *)

Module QuizFlowFacts.
Import Store Quiz QuizFlow StoreFacts.

Lemma py_index_nat {A : Type} (l : list A) (k : nat) :
  Scenario.py_index l (Z.of_nat k) = nth_error l k.
Proof.
  unfold Scenario.py_index. destruct (Z.leb_spec 0 (Z.of_nat k)); [|lia].
  rewrite Nat2Z.id. reflexivity.
Qed.

Lemma push_nav_twice (nav : Nav.user_data) (f : Nav.NavFrame) :
  Nav.push_nav (Nav.push_nav nav f) f = Nav.push_nav nav f.
Proof.
  pose proof (NavMore.top_push_nav nav f) as Hp.
  destruct (Nav.push_nav nav f) as [stk|] eqn:E; [|discriminate]. simpl in Hp.
  destruct (NavMore.stack_cases stk) as [-> | (s & t & ->)]; [discriminate|].
  rewrite NavFacts.top_snoc in Hp. injection Hp as ->.
  rewrite NavFacts.push_nav_snoc, NavFacts.frame_eqb_refl. reflexivity.
Qed.

Lemma skipn_nth {A : Type} (l : list A) (k : nat) (x : A) :
  nth_error l k = Some x -> skipn k l = x :: skipn (S k) l.
Proof.
  revert k. induction l as [|y l IH]; intros [|k] H; simpl in *; try discriminate.
  - congruence.
  - apply IH, H.
Qed.

Lemma hits_bounds (qs : list QuizQuestion) (answers : list Z) :
  0 <= hits qs answers <= Z.of_nat (List.length qs).
Proof.
  revert answers. induction qs as [|q qs IH]; intros [|a r]; simpl hits; simpl List.length;
    try lia.
  specialize (IH r). destruct (a =? answer q); lia.
Qed.

Section WithConfig.

Variable QUIZ_PASS_THRESHOLD : Z.
Variable QUIZ_ru : LevelQuiz.
Variable QUIZ_others : list (string * LevelQuiz).

Local Abbreviation questions lang level := (quiz_questions QUIZ_ru QUIZ_others lang level).
Local Abbreviation finishes := (finish QUIZ_PASS_THRESHOLD QUIZ_ru QUIZ_others).
Local Abbreviation sends := (send_quiz_question QUIZ_PASS_THRESHOLD QUIZ_ru QUIZ_others).
Local Abbreviation answers_with := (quiz_answer_callback QUIZ_PASS_THRESHOLD QUIZ_ru QUIZ_others).
Local Abbreviation selects := (quiz_level_selected QUIZ_PASS_THRESHOLD QUIZ_ru QUIZ_others).

(** The frame a question of the level is shown under. *)
Local Abbreviation level_frame level :=
  (Nav.mkFrame ("quiz_level_" ++ string_of_Z level)%string).

Lemma send_step (db : DB) (ud : UserData) (uid : Z) (lang : string) (level : Z)
    (k : nat) (q : QuizQuestion) :
  quiz_level ud = Some level -> quiz_qi ud = Some (Z.of_nat k) ->
  nth_error (questions lang level) k = Some q ->
  sends db ud uid lang
  = (db, mkUD (quiz_level ud) (quiz_qi ud) (quiz_correct ud)
           (Nav.push_nav (nav_stack ud) (level_frame level)), Asked (Z.of_nat k)).
Proof.
  intros Hl Hq Hn. unfold send_quiz_question. rewrite Hl, Hq. simpl get.
  assert (Hlen : (k < List.length (questions lang level))%nat)
    by (apply nth_error_Some; congruence).
  destruct (questions lang level) as [|q0 qs] eqn:E; [simpl in Hlen; lia|].
  destruct (Z.leb_spec (Z.of_nat (List.length (q0 :: qs))) (Z.of_nat k)); [lia|].
  rewrite py_index_nat, Hn. reflexivity.
Qed.

Lemma answer_step (db : DB) (ud : UserData) (uid : Z) (lang : string) (level a : Z)
    (k : nat) (q : QuizQuestion) :
  quiz_level ud = Some level -> quiz_qi ud = Some (Z.of_nat k) ->
  nth_error (questions lang level) k = Some q ->
  answers_with db ud uid lang (Some a)
  = let ud' := mkUD (quiz_level ud) (Some (Z.of_nat k + 1))
                 (if a =? answer q then Some (get (quiz_correct ud) 0 + 1)
                  else quiz_correct ud)
                 (nav_stack ud) in
    if Z.of_nat k + 1 <? Z.of_nat (List.length (questions lang level))
    then sends db ud' uid lang else finishes db ud' uid lang.
Proof.
  intros Hl Hq Hn. unfold quiz_answer_callback. rewrite Hl, Hq. simpl get.
  assert (Hlen : (k < List.length (questions lang level))%nat)
    by (apply nth_error_Some; congruence).
  destruct (questions lang level) as [|q0 qs] eqn:E; [simpl in Hlen; lia|].
  destruct (Z.leb_spec (Z.of_nat (List.length (q0 :: qs))) (Z.of_nat k)); [lia|].
  rewrite py_index_nat, Hn. reflexivity.
Qed.

(** A level that is not one of [QUIZ_LEVELS], or one above the level the
    user has unlocked, never starts a quiz: the store and the counters stay
    as they were and nothing is logged. *)
Theorem locked_level_starts_nothing :
  forall (db : DB) (ud : UserData) (uid : Z) (lang : string) (level : Z),
    is_level level = false \/ unlocked_level db uid < level ->
    fst (selects db ud uid lang (Some level)) = (db, ud)
    /\ (snd (selects db ud uid lang (Some level)) = NotAvailable
        \/ snd (selects db ud uid lang (Some level)) = Locked).
Proof.
  intros db ud uid lang level H. unfold quiz_level_selected.
  destruct (is_level level) eqn:E; simpl.
  - destruct H as [H|H]; [discriminate|].
    destruct (Z.ltb_spec (unlocked_level db uid) level); [|lia].
    split; [reflexivity | right; reflexivity].
  - split; [reflexivity | left; reflexivity].
Qed.

(** While a quiz goes on, an answer moves to the next question and counts
    at most one more correct answer; the store is not touched before the
    last answer. So the correct answers never exceed the questions
    answered. *)
Theorem answer_advances_by_one :
  forall (db : DB) (ud : UserData) (uid : Z) (lang : string) (a q' : Z)
         (db' : DB) (ud' : UserData),
    answers_with db ud uid lang (Some a) = (db', ud', Asked q') ->
    db' = db
    /\ q' = get (quiz_qi ud) 0 + 1
    /\ quiz_qi ud' = Some q'
    /\ quiz_level ud' = quiz_level ud
    /\ get (quiz_correct ud) 0 <= get (quiz_correct ud') 0 <= get (quiz_correct ud) 0 + 1.
Proof.
  intros db ud uid lang a q' db' ud' H. unfold quiz_answer_callback in H.
  destruct (questions lang (get (quiz_level ud) 1)) as [|q0 qs] eqn:E; [discriminate|].
  destruct (Z.of_nat (List.length (q0 :: qs)) <=? get (quiz_qi ud) 0); [discriminate|].
  destruct (Scenario.py_index (q0 :: qs) (get (quiz_qi ud) 0)) as [q|]; [|discriminate].
  destruct (get (quiz_qi ud) 0 + 1 <? Z.of_nat (List.length (q0 :: qs))).
  - unfold send_quiz_question in H. simpl get in H. rewrite E in H.
    destruct (Z.of_nat (List.length (q0 :: qs)) <=? get (quiz_qi ud) 0 + 1).
    + unfold finish in H. destruct (finish_quiz _ _ _ _ _ _ _ _); discriminate.
    + destruct (Scenario.py_index (q0 :: qs) (get (quiz_qi ud) 0 + 1)); [|discriminate].
      injection H as <- <- <-. simpl.
      repeat split; destruct (a =? answer q); simpl; lia.
  - unfold finish in H. destruct (finish_quiz _ _ _ _ _ _ _ _); discriminate.
Qed.

Lemma answer_all_cons (db : DB) (ud : UserData) (s : Signal) (uid : Z) (lang : string)
    (a : Z) (r : list Z) :
  answer_all QUIZ_PASS_THRESHOLD QUIZ_ru QUIZ_others (db, ud, s) uid lang (a :: r)
  = answer_all QUIZ_PASS_THRESHOLD QUIZ_ru QUIZ_others
      (answers_with db ud uid lang (Some a)) uid lang r.
Proof. reflexivity. Qed.

(** From question [k] on: the remaining answers lead to [finish_quiz] with
    the correct answers counted so far plus the hits among them. *)
Lemma run_from (db : DB) (uid : Z) (lang : string) (level : Z) (nav : Nav.user_data) :
  forall (answers : list Z) (k : nat) (c : Z),
    (k < List.length (questions lang level))%nat ->
    List.length answers = (List.length (questions lang level) - k)%nat ->
    answer_all QUIZ_PASS_THRESHOLD QUIZ_ru QUIZ_others
      (db, mkUD (Some level) (Some (Z.of_nat k)) (Some c)
             (Nav.push_nav nav (level_frame level)), Asked (Z.of_nat k))
      uid lang answers
    = finishes db
        (mkUD (Some level) (Some (Z.of_nat (List.length (questions lang level))))
           (Some (c + hits (skipn k (questions lang level)) answers))
           (Nav.push_nav nav (level_frame level)))
        uid lang.
Proof.
  induction answers as [|a rest IH]; intros k c Hk Hlen; [simpl in Hlen; lia|].
  destruct (nth_error (questions lang level) k) as [q|] eqn:Hn;
    [|apply nth_error_None in Hn; lia].
  rewrite answer_all_cons.
  erewrite (answer_step db _ uid lang level a k q); [|reflexivity|reflexivity|exact Hn].
  rewrite (skipn_nth _ _ _ Hn). cbn [hits get quiz_level quiz_qi quiz_correct nav_stack].
  cbn zeta. simpl in Hlen.
  destruct (Z.ltb_spec (Z.of_nat k + 1) (Z.of_nat (List.length (questions lang level))))
    as [Hlt|Hge].
  - assert (Hk' : (S k < List.length (questions lang level))%nat) by lia.
    destruct (nth_error (questions lang level) (S k)) as [q1|] eqn:Hn1;
      [|apply nth_error_None in Hn1; lia].
    replace (Z.of_nat k + 1) with (Z.of_nat (S k)) by lia.
    erewrite (send_step db _ uid lang level (S k) q1); [|reflexivity|reflexivity|exact Hn1].
    cbn [quiz_level quiz_qi quiz_correct nav_stack].
    rewrite push_nav_twice.
    destruct (a =? answer q).
    + rewrite (IH (S k) (c + 1)) by lia. f_equal. f_equal. f_equal. lia.
    + rewrite (IH (S k) c) by lia. f_equal.
  - assert (Hlast : S k = List.length (questions lang level)) by lia.
    destruct rest; [|simpl in Hlen; lia]. cbn [answer_all].
    rewrite <- Hlast, skipn_all2 by lia.
    replace (Z.of_nat k + 1) with (Z.of_nat (S k)) by lia.
    cbn [hits]. destruct (a =? answer q); f_equal; f_equal; f_equal; lia.
Qed.

(** A whole attempt: when an unlocked level with questions is selected and
    every question is answered, the last answer runs [finish_quiz] with
    exactly the number of answers that hit as the score, on the store with
    the start of the level logged; the counters are removed, and the
    reward is 15 when every answer hit and 10 otherwise. *)
Theorem answered_quiz_is_scored_by_its_hits :
  forall (db : DB) (ud : UserData) (uid : Z) (lang : string) (level : Z) (answers : list Z),
    is_level level = true ->
    level <= unlocked_level db uid ->
    questions lang level <> [] ->
    List.length answers = List.length (questions lang level) ->
    let scored :=
      finish_quiz QUIZ_PASS_THRESHOLD QUIZ_ru QUIZ_others
        (track_user_event db uid "quiz_level_start") uid lang
        (hits (questions lang level) answers) level in
    answer_all QUIZ_PASS_THRESHOLD QUIZ_ru QUIZ_others
      (selects db ud uid lang (Some level)) uid lang answers
    = (fst scored,
       mkUD None None None (Nav.push_nav (nav_stack ud) (level_frame level)),
       Completed (snd scored))
    /\ earned (snd scored)
       = (if hits (questions lang level) answers =? Z.of_nat (List.length (questions lang level))
          then 15 else 10)
    /\ passed (snd scored) = (QUIZ_PASS_THRESHOLD <=? hits (questions lang level) answers).
Proof.
  intros db ud uid lang level answers Hlev Hopen Hne Hlen scored.
  assert (Hpos : (0 < List.length (questions lang level))%nat).
  { destruct (questions lang level); [congruence | simpl; lia]. }
  split; [|split].
  - unfold quiz_level_selected. rewrite Hlev. simpl negb. cbv iota.
    destruct (Z.ltb_spec (unlocked_level db uid) level); [lia|].
    destruct (nth_error (questions lang level) 0) as [q|] eqn:Hn;
      [|apply nth_error_None in Hn; lia].
    erewrite (send_step _ _ uid lang level 0 q); [|reflexivity|reflexivity|exact Hn].
    simpl quiz_level. simpl quiz_qi. simpl quiz_correct. simpl nav_stack.
    change (Some 0) with (Some (Z.of_nat 0)) at 1.
    rewrite (run_from _ uid lang level (nav_stack ud) answers 0 0 Hpos) by lia.
    unfold finish. simpl get. simpl skipn. rewrite Z.add_0_l.
    subst scored. destruct (finish_quiz _ _ _ _ _ _ _ _). reflexivity.
  - subst scored.
    destruct (QuizFacts.finish_quiz_reports QUIZ_PASS_THRESHOLD QUIZ_ru QUIZ_others
                (track_user_event db uid "quiz_level_start") uid lang
                (hits (questions lang level) answers) level) as (_ & _ & He).
    rewrite He.
    destruct (Z.ltb_spec 0 (Z.of_nat (List.length (questions lang level)))); [|lia].
    simpl. destruct (_ =? _); reflexivity.
  - subst scored.
    destruct (QuizFacts.finish_quiz_reports QUIZ_PASS_THRESHOLD QUIZ_ru QUIZ_others
                (track_user_event db uid "quiz_level_start") uid lang
                (hits (questions lang level) answers) level) as (_ & Hp & _).
    exact Hp.
Qed.

End WithConfig.

Lemma locked_level_starts_nothing_witness :
  fst (quiz_level_selected 3 Samples.quiz_ru [] Samples.quiz_db
         (mkUD None None None None) 1 "ru" (Some 2))
  = (Samples.quiz_db, mkUD None None None None)
  /\ fst (quiz_level_selected 3 Samples.quiz_ru [] Samples.quiz_db
            (mkUD None None None None) 1 "ru" (Some 7))
     = (Samples.quiz_db, mkUD None None None None).
Proof.
  split.
  - apply (locked_level_starts_nothing 3 Samples.quiz_ru []). right. vm_compute. reflexivity.
  - apply (locked_level_starts_nothing 3 Samples.quiz_ru []). left. reflexivity.
Defined.

Lemma answer_advances_by_one_witness :
  let ud := mkUD (Some 1) (Some 0) (Some 0) (Some [Nav.root]) in
  exists ud', quiz_answer_callback 3 Samples.quiz_ru Samples.quiz_others Samples.quiz_db
                ud 1 "en" (Some 1)
              = (Samples.quiz_db, ud', Asked 1)
              /\ quiz_qi ud' = Some 1.
Proof.
  eexists. split; [reflexivity|].
  eapply (answer_advances_by_one 3 Samples.quiz_ru Samples.quiz_others Samples.quiz_db
            (mkUD (Some 1) (Some 0) (Some 0) (Some [Nav.root])) 1 "en" 1 1).
  reflexivity.
Defined.

Lemma answered_quiz_is_scored_by_its_hits_witness :
  exists db' ud' r,
    answer_all 3 Samples.quiz_ru Samples.quiz_others
      (quiz_level_selected 3 Samples.quiz_ru Samples.quiz_others Samples.quiz_db
         (mkUD None None None None) 1 "kk" (Some 1)) 1 "kk" [1; 2; 2]
    = (db', ud', Completed r)
    /\ earned r = 15 /\ passed r = true.
Proof.
  destruct (answered_quiz_is_scored_by_its_hits 3 Samples.quiz_ru Samples.quiz_others
              Samples.quiz_db (mkUD None None None None) 1 "kk" 1 [1; 2; 2])
    as (H1 & H2 & H3); try reflexivity.
  - vm_compute. discriminate.
  - do 3 eexists. split; [exact H1|]. split; [exact H2 | exact H3].
Defined.

End QuizFlowFacts.

(** ** Scenario walks: moves, endings and bounds *)

Module ScenarioMore.
Import Store Scenario ScenarioNav StoreFacts.

Lemma py_index_in_range {A : Type} (l : list A) (i : Z) :
  0 <= i -> Scenario.py_index l i = nth_error l (Z.to_nat i).
Proof. intros H. unfold py_index. destruct (Z.leb_spec 0 i); [reflexivity | lia]. Qed.

(** A choice that leads to an existing decision node moves the walk there:
    the node becomes the current one, the choice is appended to the
    history, and neither the store nor the navigation stack changes. *)
Theorem choice_moves_to_next_node :
  forall (catalog : list (string * Meta)) (db : DB) (ud : UserData) (uid : Z)
         (scenario_id node_id : string) (choice_index : Z)
         (state : State) (meta : Meta) (nd : Node) (opts : list Choice) (opt : Choice)
         (c : ascii) (k : string) (target : Node),
    scenario_state ud = Some state ->
    Quiz.assoc String.eqb scenario_id catalog = Some meta ->
    get_node (nodes meta) node_id = Some nd ->
    node_truthy nd = true ->
    options nd = Some opts ->
    choice_index < Z.of_nat (List.length opts) ->
    py_index opts choice_index = Some opt ->
    next opt = Some (String c k) ->
    get_node (nodes meta) (String c k) = Some target ->
    node_truthy target = true ->
    type target <> Some "ending" ->
    scenario_option_handler catalog db ud uid scenario_id node_id choice_index
    = (db,
       mkUD (Some (mkState (Some scenario_id) (Some (String c k))
                     (history state
                      ++ [mkItem node_id (get_str (label opt) "Выбор") (impact opt)])))
            (nav_stack ud),
       Moved (String c k)).
Proof.
  intros catalog db ud uid sid node_id i state meta nd opts opt c k target
         Hst Hmeta Hnd Htruthy Hopts Hlt Hidx Hnext Htarget Htt Hty.
  unfold scenario_option_handler.
  rewrite Hst, Hmeta, Hnd, Htruthy, Hopts. simpl negb. cbv iota.
  destruct (Z.leb_spec (Z.of_nat (List.length opts)) i) as [Hge|_]; [lia|].
  rewrite Hidx, Hnext, Htarget, Htt. simpl negb. cbv iota.
  destruct (type target) as [t|] eqn:Et; [|reflexivity].
  destruct (String.eqb_spec t "ending") as [->|Hne]; [congruence|].
  destruct t as [|a0 t]; [reflexivity|].
  repeat match goal with
  | |- context [match ?x with _ => _ end] =>
      match type of x with
      | ascii => destruct x as [[] [] [] [] [] [] [] []]; try reflexivity
      | string => destruct x; try reflexivity
      | bool => destruct x; try reflexivity
      end
  end.
  all: exfalso; apply Hne; reflexivity.
Qed.

Lemma choice_moves_to_next_node_witness :
  scenario_option_handler
    [("s", mkMeta (Some 30) None
             [("a", mkNode (Some "decision") (Some "?") None None
                      (Some [mkChoice (Some "Go") (Some "ok") (Some "safe") (Some "b")]));
              ("b", mkNode (Some "decision") (Some "??") None None (Some []))])]
    Samples.quiz_db (mkUD (Some (mkState (Some "s") (Some "a") [])) (Some [Nav.root]))
    1 "s" "a" 0
  = (Samples.quiz_db,
     mkUD (Some (mkState (Some "s") (Some "b") [mkItem "a" "Go" (Some "safe")]))
          (Some [Nav.root]),
     Moved "b").
Proof.
  erewrite choice_moves_to_next_node; try reflexivity.
  - reflexivity.
  - simpl. discriminate.
Defined.

(** An index past the last option is refused; a negative index is not: from
    [-len] to [-1] it selects an option counted from the end, exactly as the
    index [len + i] would, and below [-len] the handler raises. In the two
    failing cases the store is untouched. *)
Theorem choice_index_bounds :
  forall (catalog : list (string * Meta)) (db : DB) (ud : UserData) (uid : Z)
         (scenario_id node_id : string) (i : Z)
         (state : State) (meta : Meta) (nd : Node) (opts : list Choice),
    scenario_state ud = Some state ->
    Quiz.assoc String.eqb scenario_id catalog = Some meta ->
    get_node (nodes meta) node_id = Some nd ->
    node_truthy nd = true ->
    options nd = Some opts ->
    let run := scenario_option_handler catalog db ud uid scenario_id node_id in
    let len := Z.of_nat (List.length opts) in
    (len <= i -> snd (run i) = Unavailable /\ fst (fst (run i)) = db)
    /\ (- len <= i < 0 -> run i = run (len + i))
    /\ (i < - len -> snd (run i) = Raised /\ fst (fst (run i)) = db).
Proof.
  intros catalog db ud uid sid node_id i state meta nd opts
         Hst Hmeta Hnd Htruthy Hopts run len. subst run.
  unfold scenario_option_handler.
  rewrite Hst, Hmeta, Hnd, Htruthy, Hopts. simpl negb. cbv iota. fold len.
  split; [|split].
  - intros H. destruct (Z.leb_spec len i); [|lia]. split; reflexivity.
  - intros H. destruct (Z.leb_spec len i); [lia|].
    destruct (Z.leb_spec len (len + i)); [lia|].
    assert (E : py_index opts i = py_index opts (len + i)).
    { unfold py_index. fold len.
      destruct (Z.leb_spec 0 i); [lia|].
      destruct (Z.leb_spec 0 (len + i)); [|lia]. reflexivity. }
    rewrite E. reflexivity.
  - intros H. destruct (Z.leb_spec len i); [lia|].
    assert (E : py_index opts i = None).
    { unfold py_index. fold len.
      destruct (Z.leb_spec 0 i); [lia|].
      destruct (Z.leb_spec 0 (len + i)); [lia|]. reflexivity. }
    rewrite E. split; reflexivity.
Qed.

Lemma choice_index_bounds_witness :
  let run := scenario_option_handler [("phishing", Samples.phishing)] Samples.quiz_db
               Samples.walking 1 "phishing" "start" in
  snd (run 2) = Unavailable /\ run (-1) = run 1 /\ snd (run (-3)) = Raised.
Proof.
  destruct (choice_index_bounds [("phishing", Samples.phishing)] Samples.quiz_db
              Samples.walking 1 "phishing" "start" 2
              (mkState (Some "phishing") (Some "start") []) Samples.phishing
              (mkNode (Some "decision") (Some "You get an SMS.") None None
                 (Some [Samples.risky_choice;
                        mkChoice (Some "Ignore") (Some "Good.") (Some "safe") (Some "win")]))
              [Samples.risky_choice;
               mkChoice (Some "Ignore") (Some "Good.") (Some "safe") (Some "win")]
              eq_refl eq_refl eq_refl eq_refl eq_refl) as (H1 & _ & _).
  split; [apply H1; simpl; lia|].
  split; reflexivity.
Defined.

Lemma replace_top_length (s : list Nav.NavFrame) (f : Nav.NavFrame) :
  s <> [] -> List.length (replace_top s f) = List.length s.
Proof.
  intros H. unfold replace_top. destruct (exists_last H) as (s' & t & ->).
  rewrite removelast_last, !length_app. reflexivity.
Qed.

Lemma conclude_user_data (db : DB) (ud : UserData) (uid : Z) (meta : Meta) (ending : Node) :
  snd (fst (conclude_scenario db ud uid meta ending)) = mkUD None (menu_on_top (nav_stack ud)).
Proof.
  unfold conclude_scenario.
  destruct ((0 <? _) && _).
  - destruct (Ledger.grant_scenario_rewards _ _ _ _). reflexivity.
  - reflexivity.
Qed.

Lemma conclude_conclusion (db : DB) (ud : UserData) (uid : Z) (meta : Meta) (ending : Node) :
  c_outcome (snd (conclude_scenario db ud uid meta ending)) = get_str (outcome ending) "fail"
  /\ c_reward (snd (conclude_scenario db ud uid meta ending)) = payout meta ending.
Proof.
  unfold conclude_scenario, payout.
  destruct ((0 <? _) && _).
  - destruct (Ledger.grant_scenario_rewards _ _ _ _). split; reflexivity.
  - split; reflexivity.
Qed.

Lemma conclude_db (db : DB) (ud : UserData) (uid : Z) (meta : Meta) (ending : Node) :
  fst (fst (conclude_scenario db ud uid meta ending))
  = if 0 <? payout meta ending
    then fst (Ledger.grant_scenario_rewards (ensure_user_record db uid) uid
                (payout meta ending) (badge meta))
    else db.
Proof.
  unfold conclude_scenario, payout.
  destruct (String.eqb (get_str (outcome ending) "fail") "success").
  - rewrite andb_true_r. destruct (0 <? _).
    + destruct (Ledger.grant_scenario_rewards _ _ _ _). reflexivity.
    + reflexivity.
  - reflexivity.
Qed.

Lemma menu_on_top_peek (nav : option (list Nav.NavFrame)) :
  Nav.get_stack nav <> [] ->
  Nav.peek_nav (menu_on_top nav) = Some (Nav.mkFrame "scenario_menu")
  /\ List.length (Nav.get_stack (menu_on_top nav)) = List.length (Nav.get_stack nav).
Proof.
  intros Hne. unfold menu_on_top.
  destruct (Nav.get_stack nav) as [|f l] eqn:E; [congruence|].
  unfold Nav.peek_nav, Nav.set_stack. cbn [Nav.get_stack]. split.
  - unfold replace_top. apply NavFacts.top_snoc.
  - apply replace_top_length. discriminate.
Qed.

(** An ending pays only for a success: the reward is the scenario's reward
    when the outcome is ["success"] and 0 otherwise (a missing outcome
    counts as a fail); without a positive reward the store is untouched,
    with one the user's coins rise by it. In every case the scenario state
    is discarded and the top frame of a non-empty stack becomes the
    scenario menu, the stack keeping its length. *)
Theorem conclusion_pays_success_only :
  forall (db : DB) (ud : UserData) (uid : Z) (meta : Meta) (ending : Node),
    let r := conclude_scenario db ud uid meta ending in
    let c := snd r in
    c_outcome c = get_str (outcome ending) "fail"
    /\ c_reward c = (if String.eqb (c_outcome c) "success"
                     then match reward meta with Some x => x | None => 0 end else 0)
    /\ (c_reward c <= 0 -> fst (fst r) = db)
    /\ (0 < c_reward c ->
        Shop.balance (fst (fst r)) uid = Shop.balance db uid + c_reward c)
    /\ scenario_state (snd (fst r)) = None
    /\ (Nav.get_stack (nav_stack ud) <> [] ->
        Nav.peek_nav (nav_stack (snd (fst r))) = Some (Nav.mkFrame "scenario_menu")
        /\ List.length (Nav.get_stack (nav_stack (snd (fst r))))
           = List.length (Nav.get_stack (nav_stack ud))).
Proof.
  intros db ud uid meta ending r c. subst c r.
  destruct (conclude_conclusion db ud uid meta ending) as [Ho Hr].
  rewrite Ho, Hr, conclude_user_data, conclude_db. cbn [scenario_state nav_stack].
  split; [reflexivity|]. split; [reflexivity|].
  split; [|split; [|split; [reflexivity|apply menu_on_top_peek]]].
  - intros Hle. destruct (Z.ltb_spec 0 (payout meta ending)); [lia|reflexivity].
  - intros Hpos. destruct (Z.ltb_spec 0 (payout meta ending)); [|lia].
    destruct (BadgeMore.grant_amounts (ensure_user_record db uid) uid
                (payout meta ending) (badge meta)) as (u & u' & Hu & Hu' & Hc & _).
    pose proof (find_user_ensure db uid) as He.
    assert (E2 : ensure_user_record (ensure_user_record db uid) uid
                 = ensure_user_record db uid)
      by (eapply ShopFacts.ensure_user_record_present, He).
    rewrite E2 in Hu.
    unfold Shop.balance at 1. rewrite Hu', Hc.
    rewrite <- (ShopFacts.balance_ensure db uid). unfold Shop.balance. rewrite Hu. lia.
Qed.

Lemma conclusion_pays_success_only_witness :
  let r := conclude_scenario Samples.quiz_db Samples.walking 1 Samples.phishing
             (mkNode (Some "ending") (Some "Safe.") (Some "success") None None) in
  Shop.balance (fst (fst r)) 1 = 30
  /\ Nav.peek_nav (nav_stack (snd (fst r))) = Some (Nav.mkFrame "scenario_menu").
Proof.
  destruct (conclusion_pays_success_only Samples.quiz_db Samples.walking 1 Samples.phishing
              (mkNode (Some "ending") (Some "Safe.") (Some "success") None None))
    as (_ & _ & _ & H4 & _ & H6).
  split.
  - apply H4. simpl. lia.
  - apply H6. discriminate.
Defined.

(** Leaving a scenario for the list of scenarios (the catalog not being
    empty) discards the scenario state and puts the scenario menu on top;
    the frame of the scenario played is dropped first, so a stack ending in
    the menu and that frame ends in the menu alone. *)
Theorem scenario_home_lands_on_the_menu :
  forall (catalog : list (string * Meta)) (db : DB) (ud : UserData) (uid : Z),
    catalog <> [] ->
    let r := ScenarioNav.scenario_home_handler catalog db ud uid in
    scenario_state (snd r) = None
    /\ Nav.peek_nav (nav_stack (snd r)) = Some (Nav.mkFrame "scenario_menu")
    /\ (forall (s : list Nav.NavFrame) (x : string),
          nav_stack ud
          = Some (s ++ [Nav.mkFrame "scenario_menu";
                        Nav.mkFrame ("scenario_play_" ++ x)%string]) ->
          nav_stack (snd r) = Some (s ++ [Nav.mkFrame "scenario_menu"])).
Proof.
  intros catalog db ud uid Hne r. subst r.
  unfold ScenarioNav.scenario_home_handler, ScenarioNav.start_scenario_from_callback.
  destruct catalog as [|c0 cs]; [congruence|].
  cbn [snd scenario_state nav_stack]. split; [reflexivity|]. split.
  - unfold Nav.peek_nav.
    match goal with
    | |- Nav.top (Nav.get_stack match Nav.top (Nav.get_stack ?n) with _ => _ end) = _ =>
        destruct (Nav.top (Nav.get_stack n)) as [t|] eqn:Et
    end.
    + destruct (String.eqb_spec (Nav.view t) "scenario_menu") as [E|E].
      * rewrite Et. destruct t as [v]. simpl in E. subst v. reflexivity.
      * apply NavMore.top_push_nav.
    + apply NavMore.top_push_nav.
  - intros s x Hnav. rewrite Hnav. cbn [Nav.get_stack].
    replace (s ++ [Nav.mkFrame "scenario_menu"; Nav.mkFrame ("scenario_play_" ++ x)%string])
      with ((s ++ [Nav.mkFrame "scenario_menu"]) ++ [Nav.mkFrame ("scenario_play_" ++ x)%string])
      by (rewrite <- app_assoc; reflexivity).
    rewrite NavFacts.top_snoc. cbn [Nav.view].
    assert (Hp : Nav.startswith "scenario_play" ("scenario_play_" ++ x)%string = true).
    { reflexivity. }
    rewrite Hp. unfold Nav.set_stack. cbn [Nav.get_stack].
    rewrite NavFacts.removelast_snoc, NavFacts.top_snoc. cbn [Nav.view].
    rewrite String.eqb_refl. reflexivity.
Qed.

Lemma scenario_home_lands_on_the_menu_witness :
  let r := ScenarioNav.scenario_home_handler [("phishing", Samples.phishing)]
             Samples.quiz_db Samples.walking 1 in
  scenario_state (snd r) = None
  /\ nav_stack (snd r) = Some [Nav.root; Nav.mkFrame "scenario_menu"].
Proof.
  destruct (scenario_home_lands_on_the_menu [("phishing", Samples.phishing)]
              Samples.quiz_db Samples.walking 1) as (H1 & _ & H3); [discriminate|].
  split; [exact H1|]. apply (H3 [Nav.root] "phishing"). reflexivity.
Defined.

End ScenarioMore.

(** ** The leaderboard: scores written, weekly reset, the table shown *)

Module BoardFacts.
Import Store Leaderboard Board LeaderboardFacts.

Lemma entry_score_key (uid : Z) (p : string) (t1 t2 : list LeaderboardEntry) :
  map key t1 = map key t2 -> entry_score uid p t1 = entry_score uid p t2.
Proof.
  revert t2. induction t1 as [|e t1 IH]; intros [|e2 t2] H; try discriminate; [reflexivity|].
  cbn [map] in H. unfold key at 1 3 in H. injection H as Hu Hs Hp Ht.
  specialize (IH _ Ht). unfold entry_score in *. simpl.
  rewrite Hu, Hp. destruct ((user_id e2 =? uid) && String.eqb (period e2) p).
  - simpl. congruence.
  - exact IH.
Qed.

Lemma entry_score_recalculate (uid : Z) (p : string) (tbl : list LeaderboardEntry) :
  entry_score uid p (recalculate_ranks tbl) = entry_score uid p tbl.
Proof. apply entry_score_key, recalculate_ranks_keeps. Qed.

Lemma entry_score_upsert (uid uid' : Z) (p p' : string) (s : Z) (tbl : list LeaderboardEntry) :
  entry_score uid' p' (upsert_score uid p s tbl)
  = if (uid' =? uid) && String.eqb p' p then Some s else entry_score uid' p' tbl.
Proof.
  induction tbl as [|e t IH].
  - unfold entry_score. simpl. rewrite (Z.eqb_sym uid uid'), (String.eqb_sym p p').
    destruct ((uid' =? uid) && String.eqb p' p); reflexivity.
  - simpl upsert_score.
    destruct (Z.eqb_spec (user_id e) uid) as [Eu|Nu];
      destruct (String.eqb_spec (period e) p) as [Ep|Np]; simpl andb; cbv iota.
    1: { unfold entry_score. simpl. rewrite Eu, Ep.
         rewrite (Z.eqb_sym uid uid'), (String.eqb_sym p p').
         destruct ((uid' =? uid) && String.eqb p' p); reflexivity. }
    all: unfold entry_score in *; simpl;
      destruct (Z.eqb_spec (user_id e) uid') as [Eu'|Nu'];
      destruct (String.eqb_spec (period e) p') as [Ep'|Np']; simpl andb; cbv iota;
      try exact IH.
    all: destruct (Z.eqb_spec uid' uid) as [E1|N1];
      destruct (String.eqb_spec p' p) as [E2|N2]; simpl andb; cbv iota;
      try reflexivity; congruence.
Qed.

(** [update_leaderboard] for a user with a record writes the user's total
    score, [coins // 10 + quizzes_passed * 10 + scenario_score], into the
    user's entry of each of the three periods, creating it when missing;
    the scores of all other entries stay as they were. *)
Theorem update_leaderboard_writes_total_score :
  forall (db : DB) (uid : Z) (u : User) (uid' : Z) (p : string),
    find_user (users db) uid = Some u ->
    entry_score uid' p (leaderboard (update_leaderboard db uid))
    = if (uid' =? uid) && existsb (String.eqb p) periods
      then Some (total_score u)
      else entry_score uid' p (leaderboard db).
Proof.
  intros db uid u uid' p Hu. unfold update_leaderboard. rewrite Hu.
  unfold recalculate_leaderboard_ranks. cbn [leaderboard set_leaderboard].
  rewrite entry_score_recalculate. unfold periods. cbn [fold_left existsb].
  rewrite !entry_score_upsert.
  destruct (uid' =? uid); simpl andb; cbv iota; [|reflexivity].
  destruct (String.eqb p "monthly"), (String.eqb p "weekly"), (String.eqb p "all_time");
    reflexivity.
Qed.

Lemma update_leaderboard_writes_total_score_witness :
  entry_score 1 "weekly" (leaderboard (update_leaderboard Samples.badge_db 1))
  = Some (total_score Samples.alice)
  /\ entry_score 3 "weekly" (leaderboard (update_leaderboard Samples.badge_db 1)) = None.
Proof.
  split.
  - apply (update_leaderboard_writes_total_score Samples.badge_db 1 Samples.alice 1 "weekly").
    reflexivity.
  - reflexivity.
Defined.

Lemma nth_error_key (t1 t2 : list LeaderboardEntry) (i : nat) (e : LeaderboardEntry) :
  map key t1 = map key t2 -> nth_error t1 i = Some e ->
  exists e0, nth_error t2 i = Some e0 /\ key e0 = key e.
Proof.
  intros Hk Hn. apply (map_nth_error key) in Hn. rewrite Hk, nth_error_map in Hn.
  destruct (nth_error t2 i) as [e0|]; [|discriminate].
  exists e0. split; [reflexivity|]. simpl in Hn. congruence.
Qed.

Lemma entry_score_zero_weekly (uid : Z) (p : string) (tbl : list LeaderboardEntry) :
  p <> "weekly" -> entry_score uid p (map zero_weekly tbl) = entry_score uid p tbl.
Proof.
  intros Hp. unfold entry_score. f_equal. induction tbl as [|e t IH]; [reflexivity|].
  cbn [map find]. unfold zero_weekly at 1 2 3.
  destruct (String.eqb_spec (period e) "weekly") as [Ew|Nw].
  - cbn [user_id period]. rewrite Ew.
    destruct (String.eqb_spec "weekly" p) as [E|_]; [congruence|].
    rewrite andb_false_r. exact IH.
  - destruct ((user_id e =? uid) && String.eqb (period e) p); [reflexivity | exact IH].
Qed.

Lemma entry_score_weekly_zero (uid : Z) (tbl : list LeaderboardEntry) :
  entry_score uid "weekly" (map zero_weekly tbl)
  = option_map (fun _ => 0) (entry_score uid "weekly" tbl).
Proof.
  unfold entry_score. induction tbl as [|e t IH]; [reflexivity|].
  cbn [map find]. unfold zero_weekly at 1 2 3.
  destruct (String.eqb (period e) "weekly") eqn:Ew.
  - cbn [user_id period]. rewrite Ew.
    destruct (user_id e =? uid); cbn [andb]; [reflexivity | exact IH].
  - rewrite Ew. destruct (user_id e =? uid); cbn [andb]; exact IH.
Qed.

Lemma entry_score_recalculated (uid : Z) (p : string) (ps : list string)
    (tbl tbl' : list LeaderboardEntry) :
  recalculated ps tbl tbl' -> entry_score uid p tbl' = entry_score uid p tbl.
Proof. intros H. apply entry_score_key. unfold key. apply (recalculated_keeps _ _ _ H). Qed.

(** The function is one of the resets. *)
Lemma reset_weekly_is_weekly_reset (db : DB) : weekly_reset db (reset_weekly_leaderboard db).
Proof.
  unfold weekly_reset, ranks_recalculated, reset_weekly_leaderboard,
    recalculate_leaderboard_ranks.
  eexists. split; [apply recalculate_ranks_recalculated | reflexivity].
Qed.

(** The weekly reset, with any engine: the score of every weekly entry
    becomes 0, the scores of the other periods and the user records stay as
    they were, no row is added or removed, and the ranks of the N weekly
    rows are again 1..N, each once. *)
Theorem weekly_reset_zeroes_weekly_scores :
  forall db db' : DB,
    weekly_reset db db' ->
    let es := filter_by_period "weekly" (leaderboard db') in
    (forall x, In x es -> score (snd x) = 0)
    /\ (forall uid,
          entry_score uid "weekly" (leaderboard db')
          = option_map (fun _ => 0) (entry_score uid "weekly" (leaderboard db)))
    /\ (forall uid p, p <> "weekly" ->
          entry_score uid p (leaderboard db') = entry_score uid p (leaderboard db))
    /\ Permutation (map (fun x => rank (snd x)) es) (map Some (zseq 1 (List.length es)))
    /\ List.length (leaderboard db') = List.length (leaderboard db)
    /\ users db' = users db.
Proof.
  intros db db' (tbl' & Hr & ->) es. subst es.
  cbn [leaderboard set_leaderboard users] in *.
  set (tbl := leaderboard db) in *.
  pose proof (recalculated_keeps _ _ _ Hr) as Hk.
  split; [|split; [|split; [|split; [|split]]]].
  - intros [i e] Hin. apply filter_by_period_In in Hin. destruct Hin as [Hn Hp]. simpl.
    destruct (nth_error_key tbl' (map zero_weekly tbl) i e) as (e0 & H0 & Hk0);
      [exact Hk | exact Hn |].
    rewrite nth_error_map in H0. destruct (nth_error tbl i) as [e1|]; [|discriminate].
    simpl in H0. injection H0 as <-.
    unfold key in Hk0. injection Hk0 as _ Hs Hpe. rewrite <- Hs.
    unfold zero_weekly in *. destruct (String.eqb_spec (period e1) "weekly") as [|Hne].
    + reflexivity.
    + congruence.
  - intros uid. rewrite (entry_score_recalculated _ _ _ _ _ Hr).
    apply entry_score_weekly_zero.
  - intros uid p Hp. rewrite (entry_score_recalculated _ _ _ _ _ Hr).
    apply entry_score_zero_weekly, Hp.
  - apply (recalculated_ranked _ _ "weekly" Hr). unfold periods. simpl. tauto.
  - transitivity (List.length (map key tbl')).
    + symmetry. apply length_map.
    + unfold key. rewrite Hk, !length_map. reflexivity.
  - reflexivity.
Qed.

Lemma weekly_reset_zeroes_weekly_scores_witness :
  let db := mkDB [] [] Samples.board [] in
  entry_score 1 "weekly" (leaderboard (reset_weekly_leaderboard db)) = Some 0
  /\ entry_score 1 "all_time" (leaderboard (reset_weekly_leaderboard db)) = Some 20.
Proof.
  destruct (weekly_reset_zeroes_weekly_scores (mkDB [] [] Samples.board [])
              (reset_weekly_leaderboard (mkDB [] [] Samples.board []))
              (reset_weekly_is_weekly_reset _)) as (_ & H2 & H3 & _).
  split.
  - apply (H2 1).
  - apply (H3 1 "all_time"). discriminate.
Defined.

Lemma position_from_bounds (l : list LeaderboardEntry) (r uid k : Z) :
  position_from r uid l = Some k -> r <= k < r + Z.of_nat (List.length l).
Proof.
  revert r. induction l as [|e t IH]; intros r H; simpl in H; [discriminate|].
  destruct (user_id e =? uid).
  - injection H as <-. simpl List.length. lia.
  - apply IH in H. simpl List.length. lia.
Qed.

Lemma position_from_found (l : list LeaderboardEntry) (r uid : Z) :
  position_from r uid l <> None <-> exists e, In e l /\ user_id e = uid.
Proof.
  revert r. induction l as [|e t IH]; intros r; simpl.
  - split; [congruence | intros (e & [] & _)].
  - destruct (Z.eqb_spec (user_id e) uid) as [E|N].
    + split; [|discriminate]. intros _. exists e. split; [left; reflexivity | exact E].
    + rewrite IH. split.
      * intros (x & Hx & Hu). exists x. split; [right; exact Hx | exact Hu].
      * intros (x & [<-|Hx] & Hu); [congruence|]. exists x. split; assumption.
Qed.

(** The lines built from a list of rows name the users of those rows that
    have a record, in the same order. *)
Lemma lines_user_ids (db : DB) (names : Z -> Names) (top : list LeaderboardEntry) :
  map l_user_id
    (flat_map (fun entry =>
       match find_user (users db) (user_id entry) with
       | Some _ => [mkLine (or_default (rank entry) 0) (user_id entry)
                      (display_name (names (user_id entry)) (user_id entry)) (score entry)]
       | None => []
       end) top)
  = filter (known db) (map user_id top).
Proof.
  induction top as [|e t IH]; [reflexivity|].
  cbn [flat_map map filter]. rewrite map_app, IH. unfold known at 2.
  destruct (find_user (users db) (user_id e)); reflexivity.
Qed.

Lemma firstn_incl {A : Type} (n : nat) (l : list A) (x : A) :
  In x (firstn n l) -> In x l.
Proof.
  revert l. induction n as [|n IH]; intros [|a l] H; simpl in H; try contradiction.
  destruct H as [<-|H]; [left; reflexivity | right; apply IH, H].
Qed.

Lemma filter_all {A : Type} (f : A -> bool) (l : list A) :
  (forall x, In x l -> f x = true) -> filter f l = l.
Proof.
  induction l as [|a l IH]; intros H; [reflexivity|].
  simpl. rewrite (H a (or_introl eq_refl)), IH; [reflexivity|].
  intros x Hx. apply H. right. exact Hx.
Qed.

(** What [get_leaderboard] returns when its query returns [rows], in
    whatever order the engine puts equal scores. [total_players] counts
    the rows of the period. The users listed are those with a record among
    the first [shown] rows, in the order of the rows, where [shown] is
    [min limit total] for a limit that is not negative and [total + limit]
    for a negative one: a negative limit drops that many rows from the end
    instead of listing none. When every row's user has a record, exactly
    [shown] lines are listed (none when [shown] is negative). The user's
    position lies between 1 and [total_players], and is given exactly when a
    user id other than 0 is passed that has an entry for the period. *)
Theorem get_leaderboard_lists_the_first_rows :
  forall (db : DB) (names : Z -> Names) (p : string) (limit : Z) (uid : option Z)
         (rows : list (nat * LeaderboardEntry)),
    query_result p (leaderboard db) rows ->
    let r := get_leaderboard_of (map snd rows) db names p limit uid in
    let total := Z.of_nat (List.length (filter_by_period p (leaderboard db))) in
    let shown := if 0 <=? limit then Z.min limit total else total + limit in
    total_players r = total
    /\ map l_user_id (entries r)
       = filter (known db)
           (firstn (Z.to_nat shown) (map (fun x => user_id (snd x)) rows))
    /\ ((forall x, In x rows -> known db (user_id (snd x)) = true) ->
        List.length (entries r) = Z.to_nat shown)
    /\ Z.of_nat (List.length (entries r)) <= Z.max 0 shown
    /\ (forall k, user_position r = Some k -> 1 <= k <= total)
    /\ (user_position r <> None
        <-> exists u, uid = Some u /\ u <> 0 /\ entry_score u p (leaderboard db) <> None).
Proof.
  intros db names p limit uid rows Hq r total shown.
  assert (Hlen : List.length (map snd rows) = List.length (filter_by_period p (leaderboard db))).
  { rewrite length_map. apply Permutation_length, Hq. }
  assert (Hids : map l_user_id (entries r)
                 = filter (known db)
                     (firstn (Z.to_nat shown) (map (fun x => user_id (snd x)) rows))).
  { subst r. unfold get_leaderboard_of. cbn [entries].
    rewrite lines_user_ids, Hlen. fold total. f_equal.
    rewrite <- (map_map snd user_id), firstn_map. f_equal.
    subst shown. unfold slice_to. rewrite Hlen. fold total.
    destruct (Z.ltb_spec limit total); destruct (Z.leb_spec 0 limit); try lia.
    - rewrite Z.min_l by lia. reflexivity.
    - reflexivity.
    - rewrite Z.min_r by lia. symmetry. apply firstn_all2.
      rewrite Hlen. subst total. rewrite Nat2Z.id. lia. }
  assert (Hshown : shown <= total) by (subst shown; destruct (Z.leb_spec 0 limit); lia).
  assert (Hfirst : List.length (firstn (Z.to_nat shown) (map (fun x => user_id (snd x)) rows))
                   = Z.to_nat shown).
  { rewrite length_firstn, length_map, <- (length_map snd), Hlen. fold total in Hshown.
    subst total. lia. }
  split; [|split; [exact Hids|split; [|split; [|split]]]].
  - subst r. unfold get_leaderboard_of. cbn [total_players]. rewrite Hlen. reflexivity.
  - intros Hall. rewrite <- (length_map l_user_id), Hids, filter_all; [exact Hfirst|].
    intros u Hu. apply firstn_incl in Hu. apply in_map_iff in Hu.
    destruct Hu as (x & <- & Hx). apply Hall, Hx.
  - rewrite <- (length_map l_user_id), Hids.
    pose proof (filter_length_le (known db)
                  (firstn (Z.to_nat shown) (map (fun x => user_id (snd x)) rows))) as Hle.
    rewrite Hfirst in Hle. lia.
  - subst r. unfold get_leaderboard_of. cbn [user_position]. intros k Hk.
    destruct uid as [u|]; [|discriminate].
    destruct (u =? 0); [discriminate|].
    destruct (find _ (leaderboard db)); [|discriminate].
    apply position_from_bounds in Hk. rewrite Hlen in Hk. fold total in Hk. lia.
  - subst r. unfold get_leaderboard_of. cbn [user_position].
    destruct uid as [u|].
    + destruct (Z.eqb_spec u 0) as [E0|N0].
      * split; [congruence|]. intros (u' & Hu' & Hne & _). congruence.
      * destruct (find (fun e => (user_id e =? u) && String.eqb (period e) p)
                    (leaderboard db)) as [e|] eqn:Ef.
        -- split.
           ++ intros _. exists u. split; [reflexivity|]. split; [exact N0|].
              unfold entry_score. rewrite Ef. discriminate.
           ++ intros _. apply position_from_found.
              apply find_some in Ef. destruct Ef as [Hin Hpred].
              apply andb_true_iff in Hpred. destruct Hpred as [Hu Hp].
              apply Z.eqb_eq in Hu. apply String.eqb_eq in Hp.
              apply In_nth_error in Hin. destruct Hin as [i Hi].
              exists e. split; [|exact Hu].
              apply in_map_iff. exists (i, e). split; [reflexivity|].
              apply (query_result_In _ _ _ _ _ Hq). split; assumption.
        -- split; [congruence|]. intros (u' & Hu' & _ & H). injection Hu' as <-.
           unfold entry_score in H. rewrite Ef in H. simpl in H. congruence.
    + split; [congruence|]. intros (u' & Hu' & _). discriminate.
Qed.

Lemma get_leaderboard_lists_the_first_rows_witness :
  let db := mkDB [Samples.alice; Samples.carol] [] Samples.board [] in
  let names := fun _ : Z => mkNames None None None in
  map l_user_id (entries (get_leaderboard db names "all_time" (-1) None)) = [1]
  /\ total_players (get_leaderboard db names "all_time" (-1) None) = 3.
Proof.
  destruct (get_leaderboard_lists_the_first_rows
              (mkDB [Samples.alice; Samples.carol] [] Samples.board [])
              (fun _ : Z => mkNames None None None) "all_time" (-1) None
              (ranking "all_time" Samples.board) (ranking_query_result _ _))
    as (H1 & H2 & _).
  split; [exact H2 | exact H1].
Defined.

End BoardFacts.
